(** * complianceASC: chunk labelling, two-stage extraction, ordered
    aggregation and the task lifecycle of the analysis API.

  Shallow embedding of
    - [compliance_agent/document_loader.py]  (module [DocumentLoader]),
    - [compliance_agent/models.py]           (module [Models]),
    - [compliance_agent/extractor.py]        (module [Extractor]),
    - [compliance_agent.py], the stand-alone script (module [Legacy]),
    - [compliance_agent/api.py]              (module [Api]).

  Python [str] values are [string]s whose characters are the code points
  0..255.  Dictionaries keyed by chunk index or task id are [gmap]s.
  External collaborators (PDF loader, text splitter, LLM chains, the clock,
  [uuid4]) are inputs of the functions that use them. *)

From Stdlib Require Import String Ascii List ZArith QArith Lia DecimalString.
From Stdlib Require Import DecimalNat DecimalFacts.
From stdpp Require Import gmap strings list sorting.

Set Warnings "-register-all,-clear-no-such-hyp".
Local Open Scope nat_scope.

(* ===================================================================== *)
(** ** Python [str] methods used by the sources *)
(* ===================================================================== *)

Module PyStr.

Definition code (c : ascii) : nat := nat_of_ascii c.

(** The regex class [[0-9]]. *)
Definition is_digit09 (c : ascii) : bool :=
  (48 <=? code c) && (code c <=? 57).

(** [str.isdigit] per character: below U+0100 these are 0-9 and the
    superscripts U+00B2, U+00B3, U+00B9. *)
Definition char_isdigit (c : ascii) : bool :=
  is_digit09 c || (code c =? 178) || (code c =? 179) || (code c =? 185).

(** Characters removed by [str.strip()]: the code points below U+0100 for
    which [str.isspace] holds. *)
Definition char_isspace (c : ascii) : bool :=
  ((9 <=? code c) && (code c <=? 13)) || ((28 <=? code c) && (code c <=? 32))
  || (code c =? 133) || (code c =? 160).

Definition lower_char (c : ascii) : ascii :=
  let n := code c in
  if ((65 <=? n) && (n <=? 90))
     || ((192 <=? n) && (n <=? 222) && negb (n =? 215))
  then ascii_of_nat (n + 32) else c.

Fixpoint lower (s : string) : string :=
  match s with
  | EmptyString => EmptyString
  | String c s' => String (lower_char c) (lower s')
  end.

(** [str.upper].  U+00DF expands to "SS".  U+00B5 and U+00FF upper-case to
    code points above U+00FF; they are kept as they are, which no test for
    an ASCII substring can tell apart. *)
Definition upper_char (c : ascii) : string :=
  let n := code c in
  if ((97 <=? n) && (n <=? 122))
     || ((224 <=? n) && (n <=? 254) && negb (n =? 247))
  then String (ascii_of_nat (n - 32)) EmptyString
  else if n =? 223 then "SS"%string
  else String c EmptyString.

Fixpoint upper (s : string) : string :=
  match s with
  | EmptyString => EmptyString
  | String c s' => upper_char c +:+ upper s'
  end.

Fixpoint all_chars (p : ascii -> bool) (s : string) : bool :=
  match s with
  | EmptyString => true
  | String c s' => p c && all_chars p s'
  end.

Definition is_empty (s : string) : bool :=
  match s with EmptyString => true | _ => false end.

(** [s.isdigit()] *)
Definition isdigit (s : string) : bool :=
  negb (is_empty s) && all_chars char_isdigit s.

(** [s.startswith(p)] *)
Fixpoint startswith (p s : string) : bool :=
  match p with
  | EmptyString => true
  | String a p' =>
      match s with
      | EmptyString => false
      | String b s' => if Ascii.eqb a b then startswith p' s' else false
      end
  end.

(** [p in s] *)
Fixpoint contains (p s : string) : bool :=
  startswith p s
  || match s with
     | EmptyString => false
     | String _ s' => contains p s'
     end.

(** [s.endswith(p)] *)
Fixpoint endswith (p s : string) : bool :=
  String.eqb p s
  || match s with
     | EmptyString => false
     | String _ s' => endswith p s'
     end.

Fixpoint lstrip (s : string) : string :=
  match s with
  | EmptyString => EmptyString
  | String c s' => if char_isspace c then lstrip s' else s
  end.

Fixpoint rstrip (s : string) : string :=
  match s with
  | EmptyString => EmptyString
  | String c s' =>
      let r := rstrip s' in
      if char_isspace c && is_empty r then EmptyString else String c r
  end.

(** [s.strip()] *)
Definition strip (s : string) : string := rstrip (lstrip s).

(** [s.split('\n')[0]]: [split] never returns an empty list, and its first
    item is the text before the first line feed. *)
Fixpoint first_line (s : string) : string :=
  match s with
  | EmptyString => EmptyString
  | String c s' => if code c =? 10 then EmptyString else String c (first_line s')
  end.

(** [s[:n]] *)
Fixpoint take (n : nat) (s : string) : string :=
  match n, s with
  | S n', String c s' => String c (take n' s')
  | _, _ => EmptyString
  end.

(** [str(n)] / [f"{n}"] for a non-negative integer. *)
Definition of_nat (n : nat) : string := NilZero.string_of_uint (Nat.to_uint n).

End PyStr.

(* ===================================================================== *)
(** ** document_loader.py *)
(* ===================================================================== *)

Module DocumentLoader.
Import PyStr.

(** [langchain_core.documents.Document] *)
Record Document := mkDocument {
  page_content : string;
  metadata : gmap string string
}.

Definition detect_document_type (text_sample : string) : string :=
  let text_lower := lower text_sample in
  if contains "iso" text_lower || contains "international standard" text_lower
  then "ISO"
  else if contains "digital personal data protection" text_lower
          || contains "data principal" text_lower
  then "DPDP"
  else if contains "rbi" text_lower || contains "reserve bank" text_lower
  then "RBI"
  else "GENERAL".

(** [any(first_line.startswith(f"{j}.") for j in range(1, 50))] *)
Definition starts_with_numbering (first_line : string) : bool :=
  existsb (fun j => startswith (of_nat j +:+ ".") first_line) (seq 1 49).

(** [doc_type == "DPDP" and any("sect" in first_line.lower() or
    "sec. " in first_line for f in ["SEC", "Sect"])]; the generator
    variable [f] does not occur in the tested expression. *)
Definition dpdp_section_marker (doc_type first_line : string) : bool :=
  String.eqb doc_type "DPDP"
  && existsb (fun _ : string =>
                contains "sect" (lower first_line) || contains "sec. " first_line)
             ["SEC"; "Sect"].

(** The section id chosen in the body of the labelling loop, for the chunk
    at 0-based position [i]. *)
Definition section_id_for (doc_type : string) (i : nat) (content : string) : string :=
  let first_line := strip (first_line content) in
  if dpdp_section_marker doc_type first_line
  then "Section_" +:+ of_nat (i + 1)
  else if starts_with_numbering first_line || isdigit first_line
          || contains "ANNEX" (upper first_line)
  then first_line
  else "section_" +:+ of_nat (i + 1).

(** [chunk.metadata.update({'section_id': ..., 'doc_type': doc_type})] *)
Definition label_chunk (doc_type : string) (i : nat) (chunk : Document) : Document :=
  mkDocument (page_content chunk)
    (<["doc_type" := doc_type]>
       (<["section_id" := section_id_for doc_type i (page_content chunk)]>
          (metadata chunk))).

(** [for i, chunk in enumerate(chunks): ...] *)
Definition label_chunks (doc_type : string) (chunks : list Document) : list Document :=
  imap (label_chunk doc_type) chunks.

Section Loader.
(** [RecursiveCharacterTextSplitter(...).split_documents], with the
    separators and chunk size selected by the document type, and
    [extract_document_name] (a cascade of regular expressions) are taken
    as given. *)
Variable split_documents : string -> list Document -> list Document.
Variable extract_document_name : string -> string.

Definition load_and_chunk_pdf (documents : list Document)
  : string * string * list Document :=
  let sample_text :=
    match documents with
    | d :: _ => take 2000 (page_content d)
    | [] => EmptyString
    end in
  let doc_type := detect_document_type sample_text in
  let doc_name := extract_document_name sample_text in
  let chunks := split_documents doc_type documents in
  (doc_type, doc_name, label_chunks doc_type chunks).
End Loader.

(** After the first [[0-9]] has matched: the rest of the greedy match of
    the pattern, one or more digits followed by any number of groups made
    of a dot and one or more digits. *)
Fixpoint scan_token (s : string) : string :=
  match s with
  | EmptyString => EmptyString
  | String c s' =>
      if is_digit09 c then String c (scan_token s')
      else if Ascii.eqb c "."%char then
        match s' with
        | String d _ => if is_digit09 d then String c (scan_token s') else EmptyString
        | EmptyString => EmptyString
        end
      else EmptyString
  end.

(** [re.search] of the anchored pattern in [section_id]: group 1 of the
    match, or [None]. *)
Definition extract_section_num (section_id : string) : option string :=
  match section_id with
  | String c s' => if is_digit09 c then Some (String c (scan_token s')) else None
  | EmptyString => None
  end.

End DocumentLoader.

(* ===================================================================== *)
(** ** models.py, and the parsed JSON the chains return *)
(* ===================================================================== *)

Module Models.

(** What [JsonOutputParser] hands back.  A Python dict keeps its keys in
    insertion order, so an object is an association list. *)
Inductive json :=
| JNull
| JBool (b : bool)
| JNum (n : Z)
| JStr (s : string)
| JList (l : list json)
| JDict (d : list (string * json)).

Abbreviation dict := (list (string * json)).

(** [d.get(k)] *)
Fixpoint dict_get (k : string) (d : dict) : option json :=
  match d with
  | [] => None
  | (k', v) :: d' => if String.eqb k k' then Some v else dict_get k d'
  end.

(** [d[k] = v]: an existing key keeps its place, a new key goes last. *)
Fixpoint dict_set (k : string) (v : json) (d : dict) : dict :=
  match d with
  | [] => [(k, v)]
  | (k', v') :: d' =>
      if String.eqb k k' then (k', v) :: d' else (k', v') :: dict_set k v d'
  end.

Record ControlSuggestion := mkControlSuggestion {
  cs_priority : string;
  control_title : string;
  control : string
}.

Record ComplianceRequirement := mkComplianceRequirement {
  requirement_title : string;
  article_number : string;
  priority : string;
  article_text : string;
  requirement : string;
  requirement_description : string;
  controls : list ControlSuggestion
}.

(** A required [str] field: present and a string. *)
Definition str_field (k : string) (d : dict) : option string :=
  match dict_get k d with
  | Some (JStr s) => Some s
  | _ => None
  end.

Definition validate_control (j : json) : option ControlSuggestion :=
  match j with
  | JDict d =>
      p ← str_field "priority" d;
      t ← str_field "control_title" d;
      c ← str_field "control" d;
      Some (mkControlSuggestion p t c)
  | _ => None
  end.

(** [controls: List[ControlSuggestion] = Field(default_factory=list)] *)
Definition controls_field (d : dict) : option (list ControlSuggestion) :=
  match dict_get "controls" d with
  | None => Some []
  | Some (JList l) => mapM validate_control l
  | Some _ => None
  end.

(** [ComplianceRequirement.model_validate(req_data)]; [None] stands for the
    validation error.  Keys that are not fields of the model are ignored. *)
Definition model_validate (req_data : dict) : option ComplianceRequirement :=
  t ← str_field "requirement_title" req_data;
  a ← str_field "article_number" req_data;
  p ← str_field "priority" req_data;
  x ← str_field "article_text" req_data;
  r ← str_field "requirement" req_data;
  e ← str_field "requirement_description" req_data;
  cs ← controls_field req_data;
  Some (mkComplianceRequirement t a p x r e cs).

Record AnalysisResult := mkAnalysisResult {
  document_name : string;
  total_chunks : nat;
  processed_chunks : nat;
  requirements_found : nat;
  extracted_data : list ComplianceRequirement;
  processing_status : string;
  error_message : option string;
  ar_created_at : Z;
  ar_updated_at : Z
}.

Record TaskStatus := mkTaskStatus {
  task_id : string;
  status : string;
  progress : Q;
  message : option string;
  result_path : option string;
  intermediate_path : option string;
  created_at : Z;
  updated_at : Z
}.

End Models.

(* ===================================================================== *)
(** ** extractor.py *)
(* ===================================================================== *)

Module Extractor.
Import PyStr DocumentLoader Models.

(** Outcome of [chain.invoke(...)]: an exception, or the parsed output. *)
Inductive invoke_result :=
| Raises (e : string)
| Returns (v : json).

(** The two chains.  [req_chain] receives the keys [doc_name],
    [section_number] and [text]; [ctrl_chain] receives [requirement]. *)
Record Chains := mkChains {
  req_chain : string -> string -> string -> invoke_result;
  ctrl_chain : json -> invoke_result
}.

(** [chunk.metadata.get('section_id', 'unknown')] *)
Definition section_id_of (chunk : Document) : string :=
  default "unknown" (metadata chunk !! "section_id").

(** [extract_section_num(section_id) or section_id] *)
Definition section_num_of (section_id : string) : string :=
  match extract_section_num section_id with
  | Some t => if is_empty t then section_id else t
  | None => section_id
  end.

(** The loop that overrides both keys of every item.  An item that is not
    a dict makes the item assignment raise [TypeError]: [None]. *)
Definition override_fields (section_num text : string) (raw_output : list json)
  : option (list dict) :=
  mapM (fun req =>
          match req with
          | JDict d =>
              Some (dict_set "article_text" (JStr text)
                      (dict_set "article_number" (JStr section_num) d))
          | _ => None
          end) raw_output.

Definition extract_requirements_from_chunk
    (ch : Chains) (chunk : Document) (doc_name : string) : list dict :=
  let section_id := section_id_of chunk in
  let section_num := section_num_of section_id in
  match req_chain ch doc_name section_num (page_content chunk) with
  | Returns (JList raw_output) =>
      match override_fields section_num (page_content chunk) raw_output with
      | Some reqs => reqs
      | None => []          (* except Exception *)
      end
  | Returns _ => []         (* non-list: warning *)
  | Raises _ => []          (* except Exception *)
  end.

Definition extract_controls_for_requirement
    (ch : Chains) (requirement_dict : dict) : list json :=
  match ctrl_chain ch (default (JStr "") (dict_get "requirement" requirement_dict)) with
  | Returns (JList raw_output) => raw_output
  | Returns _ => []         (* warning, or an exception while formatting it *)
  | Raises _ => []          (* except Exception *)
  end.

Definition process_chunk
    (i : nat) (chunk : Document) (ch : Chains) (doc_name : string)
  : nat * list dict :=
  let requirements := extract_requirements_from_chunk ch chunk doc_name in
  (i, map (fun req =>
             dict_set "controls" (JList (extract_controls_for_requirement ch req)) req)
          requirements).

(** [sorted(results.keys())] *)
Definition sorted_keys (results : gmap nat (list dict)) : list nat :=
  merge_sort Nat.le (elements (dom results)).

(** [[item for idx in sorted(results.keys()) for item in results[idx]]] *)
Definition flatten_in_order (results : gmap nat (list dict)) : list dict :=
  flat_map (fun idx => results !!! idx) (sorted_keys results).

(** State of the [as_completed] loop: the [results] dictionary and the
    successive contents written to [intermediate_filename], oldest first
    (every write replaces the file).  The writes are taken to succeed
    here; [ExtractorIO] below is the loop with writes that can raise. *)
Record loop_state := mkLoop {
  results : gmap nat (list dict);
  intermediate : list (list dict)
}.

(** One iteration: [future.result()] is [(chunk_idx, chunk_results)]. *)
Definition on_completed (st : loop_state) (res : nat * list dict) : loop_state :=
  let results' := <[fst res := snd res]> (results st) in
  mkLoop results' (intermediate st ++ [flatten_in_order results']).

(** The final nested loop: validate each record, skip the invalid ones. *)
Definition validate_in_order (results : gmap nat (list dict))
  : list ComplianceRequirement :=
  flat_map (fun idx => omap model_validate (results !!! idx)) (sorted_keys results).

(** The futures submitted for [enumerate(chunks)], by chunk index. *)
Definition submit_all (ch : Chains) (doc_name : string) (chunks : list Document)
  : list (nat * list dict) :=
  imap (fun i chunk => process_chunk i chunk ch doc_name) chunks.

(** The state after the [as_completed] loop.  [order] lists the chunk
    indices in the order in which their futures finish. *)
Definition run_loop (ch : Chains) (doc_name : string) (chunks : list Document)
    (order : list nat) : loop_state :=
  fold_left on_completed
    (omap (fun k => submit_all ch doc_name chunks !! k) order)
    (mkLoop ∅ []).

(** [orchestrate_compliance_analysis], after [load_and_chunk_pdf] returned
    [doc_name] and [chunks]: the returned list and the writes made to the
    intermediate file. *)
Definition orchestrate_compliance_analysis
    (ch : Chains) (doc_name : string) (chunks : list Document) (order : list nat)
  : list ComplianceRequirement * list (list dict) :=
  let st := run_loop ch doc_name chunks order in
  (validate_in_order (results st), intermediate st).

End Extractor.

(* ===================================================================== *)
(** ** compliance_agent.py: the stand-alone script *)
(* ===================================================================== *)

Module Legacy.
Import PyStr DocumentLoader Models.

(** The script's chains take no document name. *)
Definition extract_requirements_from_chunk
    (ch : Extractor.Chains) (chunk : Document) : list dict :=
  Extractor.extract_requirements_from_chunk ch chunk EmptyString.

Definition process_chunk (i : nat) (chunk : Document) (ch : Extractor.Chains)
  : nat * list dict :=
  Extractor.process_chunk i chunk ch EmptyString.

(** Same loop as the package; the value returned is the flattened
    dictionary itself, with no validation. *)
Definition orchestrate_compliance_analysis
    (ch : Extractor.Chains) (chunks : list Document) (order : list nat)
  : list dict * list (list dict) :=
  let st := Extractor.run_loop ch EmptyString chunks order in
  (Extractor.flatten_in_order (Extractor.results st), Extractor.intermediate st).

End Legacy.

(* ===================================================================== *)
(** ** extractor.py: the loop when a checkpoint write can raise *)
(* ===================================================================== *)

Module ExtractorIO.
Import PyStr DocumentLoader Models Extractor.

(** What [open] and [json.dump] of the loop (lines 202-203) do on the
    pass numbered [i], from 0, with the content they are given: [None]
    when the file is written, [Some e] for the exception they raise, be it
    the disk or a string that utf-8 cannot encode. *)
Abbreviation write_oracle := (nat -> list dict -> option string).

(** The call so far: the exception that ended it together with the
    contents written in full before it, or the running state of the
    loop. *)
Abbreviation loop_outcome := ((string * list (list dict)) + loop_state)%type.

(** One iteration.  The write stands outside any [try]: what it raises
    ends the loop and the call. *)
Definition on_completed (write_error : write_oracle) (st : loop_outcome)
    (res : nat * list dict) : loop_outcome :=
  match st with
  | inl raised => inl raised
  | inr st =>
      let results' := <[fst res := snd res]> (results st) in
      let all_results := flatten_in_order results' in
      match write_error (length (intermediate st)) all_results with
      | Some e => inl (e, intermediate st)
      | None => inr (mkLoop results' (intermediate st ++ [all_results]))
      end
  end.

Definition run_loop (write_error : write_oracle) (ch : Chains) (doc_name : string)
    (chunks : list Document) (order : list nat) : loop_outcome :=
  fold_left (on_completed write_error)
    (omap (fun k => submit_all ch doc_name chunks !! k) order)
    (inr (mkLoop ∅ [])).

(** [orchestrate_compliance_analysis]: the exception of a write with the
    writes made before it, or the returned list with all the writes. *)
Definition orchestrate_compliance_analysis (write_error : write_oracle)
    (ch : Chains) (doc_name : string) (chunks : list Document) (order : list nat)
  : (string * list (list dict)) + (list ComplianceRequirement * list (list dict)) :=
  match run_loop write_error ch doc_name chunks order with
  | inl raised => inl raised
  | inr st => inr (validate_in_order (results st), intermediate st)
  end.

End ExtractorIO.

(* ===================================================================== *)
(** ** api.py *)
(* ===================================================================== *)

Module Api.
Import PyStr Models.

Inductive http_exception :=
| HTTPException (status_code : nat) (detail : string).

(** Effects other than changes of [task_store], in program order. *)
Inductive event :=
| EvRead                                   (* await file.read() *)
| EvWrite (path : string)                  (* open(path, 'w' / 'wb') and the write *)
| EvRemove (path : string)                 (* os.remove(path) *)
| EvPipeline (pdf_path intermediate_filename : string).
                                           (* orchestrate_compliance_analysis(...) *)

(** The module-level [task_store], the tasks handed to
    [background_tasks.add_task] and the effects so far.  A task record is
    reached through its key: the store never rebinds or deletes a key whose
    [uuid4] value is fresh. *)
Record World := mkWorld {
  task_store : gmap string TaskStatus;
  background_tasks : list (string * string * string);
  trace : list event
}.

(** What [orchestrate_compliance_analysis] does for its caller. *)
Inductive outcome :=
| Raised (e : string)
| Returned (result : list ComplianceRequirement).

(** What a call reads from outside: [uuid4()], the clock (all reads of one
    call return the same instant), [strftime], whether opening a file for
    writing raises (with the text of the exception), and the pipeline. *)
Record Env := mkEnv {
  uuid4 : string;
  now : Z;
  strftime : Z -> string;
  open_error : string -> option string;
  pipeline : string -> string -> outcome
}.

Definition emit (e : event) (w : World) : World :=
  mkWorld (task_store w) (background_tasks w) (trace w ++ [e]).

(** [len(content) / (1024 * 1024)]: the divisor is a power of two, so the
    float quotient is the exact rational. *)
Definition file_size_mb (content : list Byte.byte) : Q :=
  (inject_Z (Z.of_nat (length content)) / inject_Z (1024 * 1024))%Q.

Definition Qlt_bool (x y : Q) : bool := negb (Qle_bool y x).

Inductive analyze_response :=
| Completed (message : string) (results : AnalysisResult)   (* "synchronous" *)
| Queued (task_id : string) (message : string).             (* "asynchronous" *)

Definition analyze_pdf (env : Env) (filename : string) (content : list Byte.byte)
    (w : World) : (http_exception + analyze_response) * World :=
  if negb (endswith ".pdf" (lower filename))
  then (inl (HTTPException 400 "File must be a PDF"), w)
  else
    let w := emit EvRead w in
    let sync_processing := Qlt_bool (file_size_mb content) 5 in
    let task_id := uuid4 env in
    let temp_path := "temp_" +:+ task_id +:+ ".pdf" in
    match open_error env temp_path with
    | Some e => (inl (HTTPException 500 ("Failed to save file: " +:+ e)), w)
    | None =>
        let w := emit (EvWrite temp_path) w in
        if sync_processing then
          let intermediate_filename :=
            "intermediate_" +:+ strftime env (now env) +:+ ".json" in
          let w := emit (EvPipeline temp_path intermediate_filename) w in
          let failed e w :=
            (inl (HTTPException 500 ("Analysis failed: " +:+ e)),
             emit (EvRemove temp_path) w) in
          match pipeline env temp_path intermediate_filename with
          | Raised e => failed e w
          | Returned llm_result =>
              let analysis_result :=
                mkAnalysisResult filename 0 (length llm_result) (length llm_result)
                  llm_result "completed" None (now env) (now env) in
              let final_filename := "results_" +:+ task_id +:+ ".json" in
              match open_error env final_filename with
              | Some e => failed e w
              | None =>
                  let w := emit (EvWrite final_filename) w in
                  let w := emit (EvRemove temp_path) w in
                  (inr (Completed ("Analysis completed for " +:+ filename)
                          analysis_result), w)
              end
          end
        else
          let task_status :=
            mkTaskStatus task_id "pending" 0 (Some "Analysis queued (large file)")
              None None (now env) (now env) in
          (inr (Queued task_id
                  ("Analysis queued for large file. Use /status/" +:+ task_id
                   +:+ " to check progress.")),
           mkWorld (<[task_id := task_status]> (task_store w))
                   (background_tasks w ++ [(task_id, temp_path, filename)])
                   (trace w))
    end.

Definition get_analysis_status (task_id : string) (w : World)
  : http_exception + TaskStatus :=
  match task_store w !! task_id with
  | None => inl (HTTPException 404 "Task not found")
  | Some task_status => inr task_status
  end.

(** [x in xs] for strings *)
Definition str_in (x : string) (xs : list string) : bool :=
  existsb (String.eqb x) xs.

Definition cancel_task (env : Env) (task_id : string) (w : World)
  : (http_exception + string) * World :=
  match task_store w !! task_id with
  | None => (inl (HTTPException 404 "Task not found"), w)
  | Some task_status =>
      if str_in (status task_status) ["completed"; "failed"]
      then (inl (HTTPException 400 "Cannot cancel a completed or failed task"), w)
      else
        let task_status' :=
          mkTaskStatus (Models.task_id task_status) "cancelled"
            (progress task_status) (Some "Task cancelled by user")
            (result_path task_status) (intermediate_path task_status)
            (created_at task_status) (now env) in
        (inr "Task cancelled successfully",
         mkWorld (<[task_id := task_status']> (task_store w))
                 (background_tasks w) (trace w))
  end.

(** Assignments to the fields of the record bound to [task_id]. *)
Definition update_task (task_id : string) (f : TaskStatus -> TaskStatus)
    (w : World) : World :=
  mkWorld (alter f task_id (task_store w)) (background_tasks w) (trace w).

Definition set_processing (env : Env) (t : TaskStatus) : TaskStatus :=
  mkTaskStatus (Models.task_id t) "processing" (1 # 10)
    (Some "Loading and analyzing document")
    (result_path t) (intermediate_path t) (created_at t) (now env).

Definition set_completed (env : Env) (n : nat)
    (final_filename intermediate_filename : string) (t : TaskStatus) : TaskStatus :=
  mkTaskStatus (Models.task_id t) "completed" 1
    (Some ("Analysis completed. Found " +:+ of_nat n +:+ " requirements."))
    (Some final_filename) (Some intermediate_filename) (created_at t) (now env).

Definition set_failed (env : Env) (e : string) (t : TaskStatus) : TaskStatus :=
  mkTaskStatus (Models.task_id t) "failed" (progress t)
    (Some ("Analysis failed: " +:+ e))
    (result_path t) (intermediate_path t) (created_at t) (now env).

(** [process_pdf_analysis] up to the call of the pipeline.  [None] is the
    [KeyError] of [task_store[task_id]]. *)
Definition process_begin (env : Env) (task_id : string) (w : World)
  : option (string * World) :=
  match task_store w !! task_id with
  | None => None
  | Some _ =>
      let w := update_task task_id (set_processing env) w in
      Some ("intermediate_" +:+ strftime env (now env) +:+ ".json", w)
  end.

(** [process_pdf_analysis] from the moment the pipeline call is over, with
    what the call did. *)
Definition process_end (env : Env) (task_id pdf_path original_filename
    intermediate_filename : string) (o : outcome) (w : World) : World :=
  let failed e w :=
    emit (EvRemove pdf_path) (update_task task_id (set_failed env e) w) in
  match o with
  | Raised e => failed e w
  | Returned result =>
      match result with
      | [] => failed "list index out of range" w        (* result[0] *)
      | _ :: _ =>
          let final_filename := "results_" +:+ task_id +:+ ".json" in
          match open_error env final_filename with
          | Some e => failed e w
          | None =>
              let w := emit (EvWrite final_filename) w in
              let w :=
                update_task task_id
                  (set_completed env (length result) final_filename
                     intermediate_filename) w in
              emit (EvRemove pdf_path) w
          end
      end
  end.

(** The background task run without interruption. *)
Definition process_pdf_analysis (env : Env)
    (task_id pdf_path original_filename : string) (w : World) : option World :=
  '(intermediate_filename, w) ← process_begin env task_id w;
  let w := emit (EvPipeline pdf_path intermediate_filename) w in
  Some (process_end env task_id pdf_path original_filename intermediate_filename
          (pipeline env pdf_path intermediate_filename) w).

(** Requests and background progress, each taken as one step: the body of
    [process_pdf_analysis] is split only where the pipeline runs.  The
    states between two assignments to a record are those of [Interleaving]
    below. *)
Inductive action :=
| Analyze (filename : string) (content : list Byte.byte)
| Cancel (task_id : string)
| BgBegin (task_id : string)
| BgEnd (task_id pdf_path original_filename intermediate_filename : string)
        (o : outcome).

Definition step (env : Env) (a : action) (w : World) : World :=
  match a with
  | Analyze filename content => snd (analyze_pdf env filename content w)
  | Cancel task_id => snd (cancel_task env task_id w)
  | BgBegin task_id =>
      match process_begin env task_id w with
      | Some (_, w') => w'
      | None => w
      end
  | BgEnd task_id pdf_path original_filename intermediate_filename o =>
      process_end env task_id pdf_path original_filename intermediate_filename o w
  end.

Definition run (env : Env) (actions : list action) (w : World) : World :=
  fold_left (fun w a => step env a w) actions w.

Definition status_of (task_id : string) (w : World) : option string :=
  status <$> task_store w !! task_id.

Definition terminal (s : string) : bool :=
  str_in s ["completed"; "failed"; "cancelled"].

End Api.

(* ===================================================================== *)
(** ** config.py, and [create_llm] of extractor.py *)
(* ===================================================================== *)

Module Config.
Import PyStr.

Record Settings := mkSettings {
  llm_provider : string;
  ollama_base_url : string;
  ollama_model : string;
  groq_api_key : option string;
  groq_model : string;
  temperature : Q;
  max_workers : nat;
  chunk_overlap : nat;
  log_level : string
}.

(** Truth value of an [Optional[str]]: [None] and the empty string are
    false. *)
Definition truthy (v : option string) : bool :=
  match v with
  | Some s => negb (is_empty s)
  | None => false
  end.

(** [validate_llm_provider]: [None] when it returns, [Some msg] for the
    [ValueError] it raises. *)
Definition validate_llm_provider (self : Settings) : option string :=
  if negb (existsb (String.eqb (llm_provider self)) ["ollama"; "groq"])
  then Some ("Invalid llm_provider: " +:+ llm_provider self
             +:+ ". Must be 'ollama' or 'groq'")
  else if String.eqb (llm_provider self) "groq" && negb (truthy (groq_api_key self))
  then Some "GROQ_API_KEY is required when llm_provider is 'groq'"
  else None.

(** The call [create_llm] makes: which client class it instantiates and
    the keyword arguments it passes.  What the class then does with an
    argument is the library's and not recorded here. *)
Inductive llm :=
| ChatGroq (model : string) (api_key : option string) (temp : Q)
| OllamaLLM (model base_url : string) (temp : Q).

(** [create_llm()] reading the given settings. *)
Definition create_llm (settings : Settings) : string + llm :=
  match validate_llm_provider settings with
  | Some e => inl e
  | None =>
      if String.eqb (llm_provider settings) "groq"
      then inr (ChatGroq (groq_model settings) (groq_api_key settings)
                  (temperature settings))
      else inr (OllamaLLM (ollama_model settings) (ollama_base_url settings)
                  (temperature settings))
  end.

End Config.

(* ===================================================================== *)
(** ** api.py: serialisation and the read-only endpoints *)
(* ===================================================================== *)

Module ApiFiles.
Import PyStr Models Api.

(** Python values, as far as [serialize_for_json] tells them apart: a dict
    with its items in order (a key is any hashable value, a [datetime]
    included), a list, a [datetime], and the values of every other type,
    among them the tuple with its items and, by their [repr], floats, sets
    and other objects. *)
Inductive pyval :=
| PNone
| PBool (b : bool)
| PInt (n : Z)
| PStr (s : string)
| PDatetime (t : Z)
| PList (l : list pyval)
| PDict (d : list (pyval * pyval))
| PTuple (items : list pyval)
| POther (repr : string).

Section Serialize.
(** [datetime.isoformat] *)
Variable isoformat : Z -> string.

Fixpoint serialize_for_json (obj : pyval) : pyval :=
  match obj with
  | PDict d => PDict (map (fun kv : pyval * pyval =>
                     let (k, v) := kv in (k, serialize_for_json v)) d)
  | PList l => PList (map serialize_for_json l)
  | PDatetime t => PStr (isoformat t)
  | _ => obj
  end.
End Serialize.

(** No [datetime] at a position reached through list items and dict
    values: the value is none, and neither is an item of a list or a value
    of a dict in it, at any depth.  The keys of a dict and what a tuple or
    another object holds are not looked at. *)
Fixpoint datetime_free (obj : pyval) : bool :=
  match obj with
  | PDict d => forallb (fun kv : pyval * pyval => let (_, v) := kv in datetime_free v) d
  | PList l => forallb datetime_free l
  | PDatetime _ => false
  | _ => true
  end.

(** The files on disk: for each existing path, what opening it and
    [json.load] give, the text of the exception or the parsed content. *)
Abbreviation file_system := (gmap string (string + json)).

(** [not path]: the path is [None] or empty. *)
Definition usable_path (p : option string) : option string :=
  match p with
  | Some s => if is_empty s then None else Some s
  | None => None
  end.


Record FileResponse := mkFileResponse {
  path : string;
  filename : string;
  media_type : string
}.

Definition download_file (fs : file_system) (task_id file_type : string) (w : World)
  : http_exception + FileResponse :=
  match task_store w !! task_id with
  | None => inl (HTTPException 404 "Task not found")
  | Some task_status =>
      let chosen :=
        if String.eqb file_type "intermediate"
        then Some (intermediate_path task_status,
                   "intermediate_" +:+ task_id +:+ ".json")
        else if String.eqb file_type "final"
        then Some (result_path task_status, "results_" +:+ task_id +:+ ".json")
        else None in
      match chosen with
      | None =>
          inl (HTTPException 400 "Invalid file_type. Use 'intermediate' or 'final'")
      | Some (file_path, filename) =>
          match usable_path file_path with
          | None => inl (HTTPException 404 "File not found")
          | Some p =>
              match fs !! p with
              | None => inl (HTTPException 404 "File not found")
              | Some _ => inr (mkFileResponse p filename "application/json")
              end
          end
      end
  end.

(** Requests and background progress, each with the environment it reads. *)
Definition run_with (steps : list (Env * action)) (w : World) : World :=
  fold_left (fun w ea => step (fst ea) (snd ea) w) steps w.

End ApiFiles.

(* ===================================================================== *)
(** ** api.py: the writes to a task record, one assignment at a time *)
(* ===================================================================== *)

Module Interleaving.
Import PyStr Models Api.

(** One attribute assignment [task_status.field = value]. *)
Inductive assignment :=
| SetStatus (s : string)
| SetProgress (q : Q)
| SetMessage (m : string)
| SetResultPath (p : string)
| SetIntermediatePath (p : string)
| SetUpdatedAt (t : Z).

Definition assign (a : assignment) (t : TaskStatus) : TaskStatus :=
  match a with
  | SetStatus s =>
      mkTaskStatus (Models.task_id t) s (progress t) (message t) (result_path t)
        (intermediate_path t) (created_at t) (updated_at t)
  | SetProgress q =>
      mkTaskStatus (Models.task_id t) (status t) q (message t) (result_path t)
        (intermediate_path t) (created_at t) (updated_at t)
  | SetMessage m =>
      mkTaskStatus (Models.task_id t) (status t) (progress t) (Some m) (result_path t)
        (intermediate_path t) (created_at t) (updated_at t)
  | SetResultPath p =>
      mkTaskStatus (Models.task_id t) (status t) (progress t) (message t) (Some p)
        (intermediate_path t) (created_at t) (updated_at t)
  | SetIntermediatePath p =>
      mkTaskStatus (Models.task_id t) (status t) (progress t) (message t)
        (result_path t) (Some p) (created_at t) (updated_at t)
  | SetUpdatedAt u =>
      mkTaskStatus (Models.task_id t) (status t) (progress t) (message t)
        (result_path t) (intermediate_path t) (created_at t) u
  end.

(** The assignments of [process_pdf_analysis] and [cancel_task], in
    program order: lines 281-284, 310-315, 323-325 and 266-268. *)
Definition processing_assignments (env : Env) : list assignment :=
  [SetStatus "processing"; SetMessage "Loading and analyzing document";
   SetProgress (1 # 10); SetUpdatedAt (now env)].

Definition completed_assignments (env : Env) (n : nat)
    (final_filename intermediate_filename : string) : list assignment :=
  [SetStatus "completed"; SetProgress 1;
   SetMessage ("Analysis completed. Found " +:+ of_nat n +:+ " requirements.");
   SetResultPath final_filename; SetIntermediatePath intermediate_filename;
   SetUpdatedAt (now env)].

Definition failed_assignments (env : Env) (e : string) : list assignment :=
  [SetStatus "failed"; SetMessage ("Analysis failed: " +:+ e);
   SetUpdatedAt (now env)].

Definition cancelled_assignments (env : Env) : list assignment :=
  [SetStatus "cancelled"; SetMessage "Task cancelled by user";
   SetUpdatedAt (now env)].

(** The assignment is one that the code makes to the record stored under
    [task_id], at whatever moment and with whatever was read. *)
Definition written_by_code (task_id : string) (a : assignment) : Prop :=
  (∃ env, a ∈ processing_assignments env)
  ∨ (∃ env n intermediate_filename,
        a ∈ completed_assignments env n ("results_" +:+ task_id +:+ ".json")
              intermediate_filename)
  ∨ (∃ env e, a ∈ failed_assignments env e)
  ∨ (∃ env, a ∈ cancelled_assignments env).

(** What one thread does to the store before another may run: an upload
    binds its finished record with one item assignment, every other write
    is one attribute assignment. *)
Inductive micro :=
| Upload (env : Env) (filename : string) (content : list Byte.byte)
| Assign (task_id : string) (a : assignment).

Definition micro_step (m : micro) (w : World) : World :=
  match m with
  | Upload env filename content => snd (analyze_pdf env filename content w)
  | Assign task_id a => update_task task_id (assign a) w
  end.

Definition from_code (m : micro) : Prop :=
  match m with
  | Upload _ _ _ => True
  | Assign task_id a => written_by_code task_id a
  end.

(** The threads interleaved in some way, program order and guards not
    looked at. *)
Definition micro_run (ms : list micro) (w : World) : World :=
  fold_left (fun w m => micro_step m w) ms w.

End Interleaving.

(* ===================================================================== *)
(** ** Properties the statements below are phrased with *)
(* ===================================================================== *)

Module Props.
Import PyStr DocumentLoader Models.

(** A non-empty run of the digits 0-9. *)
Definition digit_run (d : string) : Prop :=
  d ≠ EmptyString ∧ all_chars is_digit09 d = true.

(** [.d1.d2...] *)
Fixpoint dotted (ds : list string) : string :=
  match ds with
  | [] => EmptyString
  | d :: ds' => "." +:+ d +:+ dotted ds'
  end.

(** The language of the pattern: digits, then groups of a dot and digits. *)
Definition numeric_token (t : string) : Prop :=
  ∃ d0 ds, digit_run d0 ∧ Forall digit_run ds ∧ t = d0 +:+ dotted ds.

(** What follows a greedy match: neither a digit, nor a dot and a digit. *)
Definition token_ends (rest : string) : Prop :=
  match rest with
  | EmptyString => True
  | String c r =>
      is_digit09 c = false
      ∧ (c = "."%char →
         match r with
         | EmptyString => True
         | String d _ => is_digit09 d = false
         end)
  end.

(** The first line starts with one of "1." ... "49.". *)
Definition numbered (line : string) : Prop :=
  ∃ j rest, 1 ≤ j ≤ 49 ∧ line = of_nat j +:+ "." +:+ rest.

(** [str.isdigit]: not empty, and digits only. *)
Definition purely_numeric (line : string) : Prop :=
  line ≠ EmptyString ∧ all_chars char_isdigit line = true.

Definition substring (p s : string) : Prop :=
  ∃ a b, s = a +:+ p +:+ b.

(** "ANNEX" occurs once the line is upper-cased: any letter case. *)
Definition mentions_annex (line : string) : Prop :=
  substring "ANNEX" (upper line).

(** The branch tried first for DPDP documents. *)
Definition dpdp_marked (doc_type line : string) : Prop :=
  doc_type = "DPDP"
  ∧ (substring "sect" (lower line) ∨ substring "sec. " line).

(** What the future of chunk [k] returns, [[]] out of range. *)
Definition outcome_of (ch : Extractor.Chains) (doc_name : string)
    (chunks : list Document) (k : nat) : list dict :=
  match chunks !! k with
  | Some chunk => snd (Extractor.process_chunk k chunk ch doc_name)
  | None => []
  end.

(** The records extracted for each segment, by ordinal. *)
Definition per_segment_records (ch : Extractor.Chains) (doc_name : string)
    (chunks : list Document) : list (list dict) :=
  imap (fun i chunk => snd (Extractor.process_chunk i chunk ch doc_name)) chunks.

(** The requirement list of each segment, by ordinal: its records as
    [ComplianceRequirement]s, the records that fail validation dropped. *)
Definition per_segment_requirements (ch : Extractor.Chains) (doc_name : string)
    (chunks : list Document) : list (list ComplianceRequirement) :=
  map (fun records : list dict => omap model_validate records)
      (per_segment_records ch doc_name chunks).

(** [model_dump()] of a requirement. *)
Definition dump_control (c : ControlSuggestion) : json :=
  JDict [("priority", JStr (cs_priority c));
         ("control_title", JStr (control_title c));
         ("control", JStr (control c))].

Definition model_dump (r : ComplianceRequirement) : dict :=
  [("requirement_title", JStr (requirement_title r));
   ("article_number", JStr (article_number r));
   ("priority", JStr (priority r));
   ("article_text", JStr (article_text r));
   ("requirement", JStr (requirement r));
   ("requirement_description", JStr (requirement_description r));
   ("controls", JList (dump_control <$> controls r))].

End Props.

(* ===================================================================== *)
(** ** Concrete inputs used by the examples *)
(* ===================================================================== *)

Module Examples.
Import PyStr DocumentLoader Models Extractor Api.

Definition risk_chunk : Document :=
  mkDocument "6.1.2 Determining risks
The organization shall determine the risks."
    {["section_id" := "6.1.2 Determining risks"]}.

Definition scope_chunk : Document :=
  mkDocument "Scope of this document" {["section_id" := "section_2"]}.

(** A record with every field of the model, and fields the service got
    wrong. *)
Definition risk_record : dict :=
  [("requirement_title", JStr "Risk determination");
   ("article_number", JStr "99");
   ("priority", JStr "high");
   ("article_text", JStr "made up");
   ("requirement", JStr "The organization shall determine the risks.");
   ("requirement_description", JStr "Risks have to be determined.")].

(** A record without [requirement_title]. *)
Definition untitled_record : dict :=
  [("priority", JStr "low"); ("requirement", JStr "Keep records.")].

Definition risk_control : json :=
  JDict [("priority", JStr "high"); ("control_title", JStr "Risk register");
         ("control", JStr "Maintain a risk register.")].

(** Discovery answers for section 6.1.2 only and raises otherwise; the
    control chain knows one requirement and returns a non-list otherwise. *)
Definition chains : Chains :=
  mkChains
    (fun _ section_number _ =>
       if String.eqb section_number "6.1.2"
       then Returns (JList [JDict risk_record; JDict untitled_record])
       else Raises "rate limit exceeded")
    (fun requirement =>
       match requirement with
       | JStr "The organization shall determine the risks." =>
           Returns (JList [risk_control])
       | _ => Returns (JStr "no controls")
       end).

(** Discovery always raises. *)
Definition failing_chains : Chains :=
  mkChains (fun _ _ _ => Raises "connection refused")
           (fun _ => Raises "connection refused").

(** Discovery returns one record without a title. *)
Definition untitled_chains : Chains :=
  mkChains (fun _ _ _ => Returns (JList [JDict untitled_record]))
           (fun _ => Returns (JList [])).

Definition risk_requirement : ComplianceRequirement :=
  mkComplianceRequirement "Risk determination" "6.1.2" "high"
    "6.1.2 Determining risks" "The organization shall determine the risks."
    "Risks have to be determined." [].

(** An environment in which files open, [uuid4()] is "t1" and the pipeline
    is the orchestrator run on one segment with a failing service. *)
Definition env : Env :=
  mkEnv "t1" 1000 (fun _ => "2025-01-01_00-00-00") (fun _ => None)
    (fun _ _ =>
       Returned (fst (orchestrate_compliance_analysis failing_chains
                        "Compliance Document" [scope_chunk] [0]))).

(** The same, a later instant. *)
Definition env_later : Env :=
  mkEnv "t2" 2000 (strftime env) (open_error env) (pipeline env).

Definition pending_task : TaskStatus :=
  mkTaskStatus "t1" "pending" 0 (Some "Analysis queued (large file)")
    None None 1000 1000.

(** The world [analyze_pdf] leaves after queueing "policy.pdf" as "t1". *)
Definition queued_world : World :=
  mkWorld {["t1" := pending_task]} [("t1", "temp_t1.pdf", "policy.pdf")]
    [EvRead; EvWrite "temp_t1.pdf"].

Definition empty_world : World := mkWorld ∅ [] [].

(** Pages short enough to be their own pieces. *)
Definition page_splitter (doc_type : string) (documents : list Document)
  : list Document := documents.

Definition no_title (sample : string) : string := "Compliance Document".

Definition iso_pages : list Document :=
  [mkDocument "INTERNATIONAL STANDARD ISO 9001" ∅;
   mkDocument "6.1.2 Determining risks" ∅].

Definition dpdp_pages : list Document :=
  [mkDocument "THE DIGITAL PERSONAL DATA PROTECTION ACT, 2023
7. Notice under section 5
(1) Every request shall be accompanied by a notice." ∅].

(** A splitter that cuts the page above before its numbered clause. *)
Definition notice_splitter (doc_type : string) (documents : list Document)
  : list Document :=
  [mkDocument "7. Notice under section 5
(1) Every request shall be accompanied by a notice." ∅].

End Examples.

(* ===================================================================== *)
(** ** Further properties and inputs *)
(* ===================================================================== *)

Module Invariants.
Import PyStr DocumentLoader Models Extractor Api ApiFiles.

(** No line feed in the string. *)
Definition single_line (s : string) : Prop :=
  all_chars (fun c => negb (code c =? 10)) s = true.

(** The five status values the code writes. *)
Definition known_status (s : string) : Prop :=
  s ∈ ["pending"; "processing"; "completed"; "failed"; "cancelled"].

(** What holds of the record stored under key [k]. *)
Definition record_ok (k : string) (t : TaskStatus) : Prop :=
  task_id t = k
  ∧ known_status (status t)
  ∧ (progress t = 0%Q ∨ progress t = (1 # 10)%Q ∨ progress t = 1%Q)
  ∧ (result_path t = None ↔ intermediate_path t = None)
  ∧ (∀ p, result_path t = Some p → p = "results_" +:+ k +:+ ".json")
  ∧ (status t = "completed" →
     progress t = 1%Q
     ∧ result_path t = Some ("results_" +:+ k +:+ ".json")
     ∧ is_Some (intermediate_path t)).

Definition store_ok (w : World) : Prop :=
  ∀ k t, task_store w !! k = Some t → record_ok k t.

(** A step that is not an upload. *)
Definition not_analyze (ea : Env * action) : Prop :=
  match snd ea with
  | Analyze _ _ => False
  | _ => True
  end.

(** The item of the service's answer is a JSON object. *)
Definition is_dict (j : json) : Prop :=
  match j with
  | JDict _ => True
  | _ => False
  end.

(** The keys the extraction stage writes itself. *)
Definition stage_key (k : string) : Prop :=
  k = "article_number" ∨ k = "article_text" ∨ k = "controls".

(** The segments among [0..n-1] whose futures are among the first [j + 1]
    of the completion order, by ascending ordinal. *)
Definition completed_upto (order : list nat) (j n : nat) : list nat :=
  filter (fun k => k ∈ firstn (S j) order) (seq 0 n).

(** Settings with the Groq provider and a key. *)
Definition groq_settings : Config.Settings :=
  Config.mkSettings "groq" "https://ollama-serve.ascentbusiness.com"
    "mistral:latest" (Some "gsk_key") "llama-3.1-8b-instant" (1 # 10) 6 200 "INFO".

(** A dumped analysis result with its two timestamps. *)
Definition dumped_result : pyval :=
  PDict [(PStr "document_name", PStr "policy.pdf");
         (PStr "requirements_found", PInt 0);
         (PStr "extracted_data", PList []);
         (PStr "error_message", PNone);
         (PStr "created_at", PDatetime 1000);
         (PStr "updated_at", PDatetime 1000)].

(** A value that holds no [datetime]. *)
Definition plain_value : pyval :=
  PDict [(PStr "status", PStr "healthy");
         (PStr "checks", PList [PBool true; PInt 3])].

(** A [datetime] as a dict key and one inside a tuple. *)
Definition keyed_by_time : pyval :=
  PDict [(PDatetime 1000, PTuple [PStr "started"; PDatetime 1000])].

Definition iso8601 (t : Z) : string := "2025-01-01T00:00:00".

(** A page with the metadata the PDF loader attaches. *)
Definition loaded_page : Document :=
  mkDocument "4 Context of the organization"
    (<["page" := "0"]> {["source" := "iso9001.pdf"]}).

(** The service answers with one object and one bare string. *)
Definition mixed_chains : Chains :=
  mkChains (fun _ _ _ => Returns (JList [JDict Examples.risk_record; JStr "n/a"]))
           (fun _ => Returns (JList [])).

(** A task completed by the background run of [Examples.queued_world]. *)
Definition completing_env : Env :=
  mkEnv "t1" 3000 (fun _ => "2025-01-01_00-00-00") (fun _ => None)
    (fun _ _ => Returned [Examples.risk_requirement]).

Definition completed_world : World :=
  run_with [(completing_env, BgBegin "t1");
            (completing_env,
             BgEnd "t1" "temp_t1.pdf" "policy.pdf"
               "intermediate_2025-01-01_00-00-00.json"
               (Returned [Examples.risk_requirement]))]
    Examples.queued_world.

(** The disk once the result file of "t1" is written. *)
Definition result_files : file_system :=
  {["results_t1.json" := inr (JDict [("document_name", JStr "policy.pdf")])]}.

(** An environment in which no file can be opened for writing. *)
Definition readonly_env : Env :=
  mkEnv "t9" 4000 (fun _ => "2025-01-01_00-00-00") (fun _ => Some "disk full")
    (fun _ _ => Returned []).





(** An upload of exactly 5 * 1024 * 1024 zero bytes. *)
Definition five_mb_upload : list Byte.byte :=
  repeat Byte.x00 (N.to_nat 5242880).

(** An environment whose pipeline raises. *)
Definition raising_env : Env :=
  mkEnv "t3" 5000 (fun _ => "2025-01-01_00-00-00") (fun _ => None)
    (fun _ _ => Raised "model service unreachable").

(** Every checkpoint write succeeds. *)
Definition unfailing : ExtractorIO.write_oracle := fun _ _ => None.


End Invariants.

(* ===================================================================== *)
(** ** Facts about the string functions *)
(* ===================================================================== *)

(** [simpl] may unfold string concatenation in the proofs below. *)
#[local] Arguments String.append !_ _ : simpl nomatch.

Section PyStrFacts.
Import PyStr DocumentLoader Props.

Lemma str_app_assoc (a b c : string) : (a +:+ b) +:+ c = a +:+ (b +:+ c).
Proof. induction a as [|x a IH]; simpl; [done | by rewrite IH]. Qed.

Lemma str_app_nil_r (a : string) : a +:+ "" = a.
Proof. induction a as [|x a IH]; simpl; [done | by rewrite IH]. Qed.

Lemma str_app_eq_nil (a b : string) : a +:+ b = "" → a = "" ∧ b = "".
Proof. destruct a; simpl; [done | discriminate]. Qed.

Lemma startswith_spec (p s : string) :
  startswith p s = true ↔ ∃ r, s = p +:+ r.
Proof.
  revert s. induction p as [|a p IH]; intros s; simpl.
  - split; eauto.
  - destruct s as [|b s].
    + split; [discriminate | intros [r Hr]; discriminate].
    + destruct (Ascii.eqb_spec a b) as [->|Hne].
      * rewrite IH. split; intros [r Hr]; exists r; congruence.
      * split; [discriminate | intros [r Hr]; congruence].
Qed.

Lemma contains_spec (p s : string) : contains p s = true ↔ substring p s.
Proof.
  unfold substring. induction s as [|c s IH].
  - cbn [contains]. rewrite orb_false_r, startswith_spec. split.
    + intros [r Hr]. by exists "", r.
    + intros (a & b & Hab). symmetry in Hab.
      apply str_app_eq_nil in Hab as [-> Hpb]. exists b. by rewrite Hpb.
  - cbn [contains]. rewrite orb_true_iff, startswith_spec, IH. split.
    + intros [[r Hr] | (a & b & Hab)].
      * by exists "", r.
      * exists (String c a), b. simpl. by rewrite Hab.
    + intros (a & b & Hab). destruct a as [|x a]; simpl in Hab.
      * left. by exists b.
      * right. exists a, b. congruence.
Qed.

Lemma endswith_spec (p s : string) : endswith p s = true ↔ ∃ a, s = a +:+ p.
Proof.
  induction s as [|c s IH]; cbn [endswith].
  - rewrite orb_false_r, String.eqb_eq. split.
    + intros ->. by exists "".
    + intros [a Ha]. symmetry in Ha. by apply str_app_eq_nil in Ha as [_ ->].
  - rewrite orb_true_iff, String.eqb_eq, IH. split.
    + intros [-> | [a ->]]; [by exists "" | by exists (String c a)].
    + intros [a Ha]. destruct a as [|x a]; simpl in Ha.
      * by left.
      * right. exists a. congruence.
Qed.

Lemma all_chars_app (f : ascii → bool) (a b : string) :
  all_chars f (a +:+ b) = all_chars f a && all_chars f b.
Proof. induction a as [|x a IH]; simpl; [done | by rewrite IH, andb_assoc]. Qed.

Lemma isdigit_spec (s : string) : isdigit s = true ↔ purely_numeric s.
Proof.
  unfold isdigit, purely_numeric. rewrite andb_true_iff, negb_true_iff.
  destruct s; simpl; split; intros [H1 H2]; split; try done.
Qed.

Lemma starts_with_numbering_spec (line : string) :
  starts_with_numbering line = true ↔ numbered line.
Proof.
  unfold starts_with_numbering, numbered. rewrite existsb_exists. split.
  - intros (j & Hj & Hs). apply in_seq in Hj.
    apply startswith_spec in Hs as [r Hr].
    exists j, r. split; [lia |]. by rewrite Hr, str_app_assoc.
  - intros (j & r & Hj & ->). exists j. split; [apply in_seq; lia |].
    apply startswith_spec. exists r. by rewrite str_app_assoc.
Qed.

Lemma dpdp_section_marker_spec (doc_type line : string) :
  dpdp_section_marker doc_type line = true ↔ dpdp_marked doc_type line.
Proof.
  unfold dpdp_section_marker, dpdp_marked. cbn [existsb].
  rewrite andb_true_iff, String.eqb_eq, orb_false_r, orb_diag, orb_true_iff.
  by rewrite !contains_spec.
Qed.

End PyStrFacts.

(* ===================================================================== *)
(** ** The section-number pattern *)
(* ===================================================================== *)

Section SectionNumber.
Import PyStr DocumentLoader Props.

Lemma dot_not_digit : is_digit09 "."%char = false.
Proof. reflexivity. Qed.

Lemma scan_token_digits (d r : string) :
  all_chars is_digit09 d = true → scan_token (d +:+ r) = d +:+ scan_token r.
Proof.
  induction d as [|c d IH]; simpl; [done |].
  intros [Hc Hd]%andb_true_iff. by rewrite Hc, IH.
Qed.

Lemma scan_token_group (d r : string) :
  digit_run d → scan_token ("." +:+ d +:+ r) = "." +:+ d +:+ scan_token r.
Proof.
  intros [Hne Hd]. destruct d as [|c d]; [done |].
  simpl in Hd. apply andb_true_iff in Hd as [Hc Hd].
  change ("." +:+ String c d +:+ r) with (String "." (String c (d +:+ r))).
  cbn [scan_token]. rewrite dot_not_digit, Hc. cbn [Ascii.eqb Bool.eqb].
  simpl. f_equal. f_equal. by apply scan_token_digits.
Qed.

Lemma scan_token_ends (r : string) : token_ends r → scan_token r = "".
Proof.
  destruct r as [|c r]; simpl; [done |]. intros [Hc Hdot]. rewrite Hc.
  destruct (Ascii.eqb_spec c ".") as [->|_]; [|done].
  specialize (Hdot eq_refl). destruct r as [|d r]; [done | by rewrite Hdot].
Qed.

Lemma scan_token_dotted (ds : list string) (r : string) :
  Forall digit_run ds → token_ends r → scan_token (dotted ds +:+ r) = dotted ds.
Proof.
  intros Hds Hr. induction Hds as [|d ds Hd _ IH].
  - simpl. by apply scan_token_ends.
  - cbn [dotted]. rewrite !str_app_assoc.
    rewrite <- (str_app_assoc d), <- str_app_assoc, str_app_assoc.
    rewrite (str_app_assoc d), scan_token_group by done. by rewrite IH.
Qed.

Lemma extract_section_num_complete (t rest : string) :
  numeric_token t → token_ends rest →
  extract_section_num (t +:+ rest) = Some t.
Proof.
  intros (d0 & ds & [Hne Hd0] & Hds & ->) Hrest.
  destruct d0 as [|c d0]; [done |].
  simpl in Hd0. apply andb_true_iff in Hd0 as [Hc Hd0].
  rewrite str_app_assoc. simpl. rewrite Hc. do 2 f_equal.
  rewrite scan_token_digits by done. by rewrite scan_token_dotted.
Qed.

Lemma dotted_head (ds : list string) (c : ascii) (s : string) :
  dotted ds = String c s → c = "."%char.
Proof. destruct ds; simpl; [discriminate | congruence]. Qed.

Lemma scan_token_sound (s : string) :
  ∃ d ds rest,
    all_chars is_digit09 d = true ∧ Forall digit_run ds
    ∧ scan_token s = d +:+ dotted ds
    ∧ s = scan_token s +:+ rest ∧ token_ends rest.
Proof.
  induction s as [|c s IH].
  - exists "", [], "". by repeat split.
  - destruct IH as (d & ds & rest & Hd & Hds & Hscan & Hs & Hrest).
    cbn [scan_token]. destruct (is_digit09 c) eqn:Hc.
    + exists (String c d), ds, rest. simpl. rewrite Hc, Hd.
      repeat split; try done; congruence.
    + destruct (Ascii.eqb_spec c ".") as [->|Hdot].
      * destruct s as [|x s].
        { exists "", [], ".". by repeat split. }
        destruct (is_digit09 x) eqn:Hx.
        -- assert (d ≠ "") as Hne.
           { intros ->. simpl in Hscan. rewrite Hx in Hscan. simpl in Hscan.
             symmetry in Hscan. apply dotted_head in Hscan. subst x.
             discriminate. }
           exists "", (d :: ds), rest. repeat split; try done.
           ++ constructor; [by split | done].
           ++ by rewrite Hscan.
           ++ change (String "." (String x s)
                      = String "." (scan_token (String x s) +:+ rest)).
              by rewrite <- Hs.
        -- exists "", [], (String "." (String x s)). repeat split; try done.
      * exists "", [], (String c s). repeat split; try done.
Qed.

Lemma extract_section_num_sound (s t : string) :
  extract_section_num s = Some t →
  ∃ rest, s = t +:+ rest ∧ numeric_token t ∧ token_ends rest.
Proof.
  destruct s as [|c s]; simpl; [discriminate |].
  destruct (is_digit09 c) eqn:Hc; [|discriminate]. intros [= <-].
  destruct (scan_token_sound s) as (d & ds & rest & Hd & Hds & Hscan & Hs & Hrest).
  exists rest. repeat split; [simpl; congruence | | done].
  exists (String c d), ds. repeat split; [done | simpl; by rewrite Hc | done |].
  simpl. by rewrite Hscan.
Qed.

Lemma extract_section_num_spec (s t : string) :
  extract_section_num s = Some t
  ↔ ∃ rest, s = t +:+ rest ∧ numeric_token t ∧ token_ends rest.
Proof.
  split; [apply extract_section_num_sound |].
  intros (rest & -> & Ht & Hrest). by apply extract_section_num_complete.
Qed.

Lemma numeric_token_head (t : string) :
  numeric_token t → ∃ c u, t = String c u ∧ is_digit09 c = true.
Proof.
  intros (d0 & ds & [Hne Hd0] & _ & ->). destruct d0 as [|c d0]; [done |].
  simpl in Hd0. apply andb_true_iff in Hd0 as [Hc _]. by exists c, (d0 +:+ dotted ds).
Qed.

Lemma extract_section_num_none (s : string) :
  extract_section_num s = None
  ↔ ¬ ∃ t rest, s = t +:+ rest ∧ numeric_token t.
Proof.
  split.
  - intros Hnone (t & rest & -> & Ht).
    destruct (numeric_token_head t Ht) as (c & u & -> & Hc).
    simpl in Hnone. by rewrite Hc in Hnone.
  - intros Hno. destruct (extract_section_num s) as [t|] eqn:E; [|done].
    apply extract_section_num_sound in E as (rest & -> & Ht & _).
    destruct Hno. by exists t, rest.
Qed.

Lemma section_num_of_some (s t : string) :
  extract_section_num s = Some t → Extractor.section_num_of s = t.
Proof.
  intros E. unfold Extractor.section_num_of. rewrite E.
  apply extract_section_num_sound in E as (_ & _ & Ht & _).
  by destruct (numeric_token_head t Ht) as (c & u & -> & _).
Qed.

Lemma section_num_of_none (s : string) :
  extract_section_num s = None → Extractor.section_num_of s = s.
Proof. intros E. unfold Extractor.section_num_of. by rewrite E. Qed.

End SectionNumber.

(* ===================================================================== *)
(** ** The extraction stage *)
(* ===================================================================== *)

Section ExtractionFacts.
Import PyStr DocumentLoader Models Extractor Props.

Lemma dict_get_set_eq (k : string) (v : json) (d : dict) :
  dict_get k (dict_set k v d) = Some v.
Proof.
  induction d as [|[k' v'] d IH]; simpl.
  - by rewrite String.eqb_refl.
  - destruct (String.eqb k k') eqn:E; simpl; rewrite E; [done | exact IH].
Qed.

Lemma dict_get_set_ne (k k' : string) (v : json) (d : dict) :
  k ≠ k' → dict_get k (dict_set k' v d) = dict_get k d.
Proof.
  intros Hne. induction d as [|[k0 v0] d IH]; simpl.
  - by apply String.eqb_neq in Hne as ->.
  - destruct (String.eqb_spec k' k0) as [->|Hk]; simpl.
    + by apply String.eqb_neq in Hne as ->.
    + by rewrite IH.
Qed.

(** The records that leave [extract_requirements_from_chunk] carry the
    locally computed values. *)
Lemma extract_requirements_overridden (ch : Chains) (chunk : Document)
    (doc_name : string) (d : dict) :
  d ∈ extract_requirements_from_chunk ch chunk doc_name →
  dict_get "article_number" d
    = Some (JStr (section_num_of (section_id_of chunk)))
  ∧ dict_get "article_text" d = Some (JStr (page_content chunk)).
Proof.
  unfold extract_requirements_from_chunk.
  destruct (req_chain ch _ _ _) as [e|[| | | |raw|]]; try by intros ?%elem_of_nil.
  destruct (override_fields _ _ raw) as [reqs|] eqn:E; [|by intros ?%elem_of_nil].
  intros Hd. unfold override_fields in E. apply mapM_Some in E.
  apply list_elem_of_lookup in Hd as [i Hi].
  destruct (Forall2_lookup_r _ _ _ _ _ E Hi) as (x & _ & Hx).
  destruct x; try discriminate. injection Hx as <-. split.
  - rewrite dict_get_set_ne by discriminate. apply dict_get_set_eq.
  - apply dict_get_set_eq.
Qed.

Lemma process_chunk_index (i : nat) (chunk : Document) (ch : Chains)
    (doc_name : string) :
  fst (process_chunk i chunk ch doc_name) = i.
Proof. reflexivity. Qed.

Lemma process_chunk_overridden (i : nat) (chunk : Document) (ch : Chains)
    (doc_name : string) (d : dict) :
  d ∈ snd (process_chunk i chunk ch doc_name) →
  dict_get "article_number" d
    = Some (JStr (section_num_of (section_id_of chunk)))
  ∧ dict_get "article_text" d = Some (JStr (page_content chunk)).
Proof.
  unfold process_chunk. cbn [snd].
  intros (req & -> & Hreq)%list_elem_of_fmap.
  rewrite !dict_get_set_ne by discriminate.
  by apply extract_requirements_overridden with ch doc_name.
Qed.

Lemma model_validate_fields (d : dict) (r : ComplianceRequirement) :
  model_validate d = Some r →
  dict_get "article_number" d = Some (JStr (article_number r))
  ∧ dict_get "article_text" d = Some (JStr (article_text r)).
Proof.
  unfold model_validate, str_field. intros H.
  repeat match type of H with
         | context [dict_get ?k d] =>
             let E := fresh "E" in
             destruct (dict_get k d) as [[]|] eqn:E; simpl in H; try discriminate
         end;
  simplify_option_eq; done.
Qed.

(** A failed or malformed discovery call yields no requirement. *)
Lemma discovery_failure_isolated (ch : Chains) (chunk : Document)
    (doc_name : string) :
  (∀ l, req_chain ch doc_name (section_num_of (section_id_of chunk))
          (page_content chunk) ≠ Returns (JList l)) →
  extract_requirements_from_chunk ch chunk doc_name = [].
Proof.
  intros Hno. unfold extract_requirements_from_chunk.
  destruct (req_chain ch _ _ _) as [e|[| | | |raw|]]; try done.
  by destruct (Hno raw).
Qed.

(** A failed or malformed control call yields no control. *)
Lemma control_failure_isolated (ch : Chains) (req : dict) :
  (∀ l, ctrl_chain ch (default (JStr "") (dict_get "requirement" req))
        ≠ Returns (JList l)) →
  extract_controls_for_requirement ch req = [].
Proof.
  intros Hno. unfold extract_controls_for_requirement.
  destruct (ctrl_chain ch _) as [e|[| | | |raw|]]; try done.
  by destruct (Hno raw).
Qed.

End ExtractionFacts.

(* ===================================================================== *)
(** ** The [as_completed] loop *)
(* ===================================================================== *)

Section LoopFacts.
Import PyStr DocumentLoader Models Extractor Props.

Context (ch : Chains) (doc_name : string) (chunks : list Document).

Lemma submit_all_lookup (k : nat) (r : nat * list dict) :
  submit_all ch doc_name chunks !! k = Some r →
  k < length chunks ∧ r = (k, outcome_of ch doc_name chunks k).
Proof.
  unfold submit_all, outcome_of. rewrite list_lookup_imap.
  destruct (chunks !! k) as [c|] eqn:E; simpl; [|discriminate].
  intros [= <-]. split; [by eapply lookup_lt_Some | done].
Qed.

Lemma submit_all_lookup_lt (k : nat) :
  k < length chunks →
  submit_all ch doc_name chunks !! k = Some (k, outcome_of ch doc_name chunks k).
Proof.
  intros Hk. unfold submit_all, outcome_of. rewrite list_lookup_imap.
  destruct (lookup_lt_is_Some_2 chunks k Hk) as [c ->]. done.
Qed.

(** The results dictionary after the futures [rs] have been handled. *)
Lemma results_fold (rs : list (nat * list dict)) (st : loop_state) :
  results (fold_left on_completed rs st)
  = fold_left (fun m r => <[fst r := snd r]> m) rs (results st).
Proof. revert st. induction rs as [|r rs IH]; intros st; simpl; [done | by rewrite IH]. Qed.

Lemma insert_fold_lookup (rs : list (nat * list dict))
    (m : gmap nat (list dict)) (k : nat) :
  Forall (fun r => snd r = outcome_of ch doc_name chunks (fst r)) rs →
  fold_left (fun m r => <[fst r := snd r]> m) rs m !! k
  = if decide (k ∈ rs.*1) then Some (outcome_of ch doc_name chunks k) else m !! k.
Proof.
  intros Hrs. revert m. induction Hrs as [|[i v] rs Hv _ IH]; intros m; simpl.
  - done.
  - rewrite IH. simpl in Hv. subst v.
    change (((i, outcome_of ch doc_name chunks i) :: rs).*1) with (i :: rs.*1).
    destruct (decide (k ∈ rs.*1)) as [Hin|Hnin].
    + by rewrite decide_True by (by right).
    + destruct (decide (k = i)) as [->|Hne].
      * rewrite lookup_insert_eq. by rewrite decide_True by left.
      * rewrite lookup_insert_ne by done.
        rewrite decide_False; [done |]. by intros [?|?]%elem_of_cons.
Qed.

(** The futures named by a completion order. *)
Lemma completed_futures (order : list nat) :
  Forall (fun k => k < length chunks) order →
  omap (fun k => submit_all ch doc_name chunks !! k) order
  = map (fun k => (k, outcome_of ch doc_name chunks k)) order.
Proof.
  induction 1 as [|k order Hk _ IH]; simpl; [done |].
  rewrite submit_all_lookup_lt by done. f_equal. exact IH.
Qed.

Lemma permutation_in_range (order : list nat) :
  order ≡ₚ seq 0 (length chunks) →
  Forall (fun k => k < length chunks) order.
Proof.
  intros Hp. apply Forall_forall. intros k Hk.
  rewrite Hp in Hk. apply elem_of_seq in Hk. lia.
Qed.

(** Once every future has completed, slot [k] holds the output of chunk
    [k], whatever the order of completion. *)
Lemma results_complete (order : list nat) (k : nat) :
  order ≡ₚ seq 0 (length chunks) →
  results (run_loop ch doc_name chunks order) !! k
  = if decide (k < length chunks) then Some (outcome_of ch doc_name chunks k) else None.
Proof.
  intros Hp. unfold run_loop.
  rewrite completed_futures by by apply permutation_in_range.
  rewrite results_fold, insert_fold_lookup; simpl.
  - rewrite <- list_fmap_compose.
    replace (fst ∘ (fun k0 : nat => (k0, outcome_of ch doc_name chunks k0))) with (@id nat) by done.
    rewrite list_fmap_id, lookup_empty.
    destruct (decide (k < length chunks)) as [Hk|Hk].
    + rewrite decide_True; [done |]. rewrite Hp. apply elem_of_seq. lia.
    + rewrite decide_False; [done |]. rewrite Hp, elem_of_seq. lia.
  - apply Forall_forall. by intros r (k' & -> & _)%list_elem_of_fmap.
Qed.

Lemma Sorted_le_seq (s n : nat) : Sorted Nat.le (seq s n).
Proof.
  revert s. induction n as [|n IH]; intros s; simpl; [constructor |].
  constructor; [apply IH |]. destruct n; simpl; constructor. lia.
Qed.

Lemma sorted_keys_complete (order : list nat) :
  order ≡ₚ seq 0 (length chunks) →
  sorted_keys (results (run_loop ch doc_name chunks order))
  = seq 0 (length chunks).
Proof.
  intros Hp. unfold sorted_keys.
  apply (Sorted_unique Nat.le).
  - apply Sorted_merge_sort. apply _.
  - apply Sorted_le_seq.
  - rewrite merge_sort_Permutation.
    apply NoDup_Permutation; [apply NoDup_elements | apply NoDup_seq |].
    intros k. rewrite elem_of_elements, elem_of_dom, results_complete by done.
    rewrite elem_of_seq. destruct (decide (k < length chunks)).
    + split; [lia | by eauto].
    + split; [by intros [? ?] | lia].
Qed.

Lemma results_total_complete (order : list nat) (k : nat) :
  order ≡ₚ seq 0 (length chunks) →
  results (run_loop ch doc_name chunks order) !!! k = outcome_of ch doc_name chunks k.
Proof.
  intros Hp. rewrite lookup_total_alt, results_complete by done.
  destruct (decide (k < length chunks)) as [Hk|Hk]; simpl; [done |].
  unfold outcome_of. by rewrite lookup_ge_None_2 by lia.
Qed.

Lemma flat_map_ext_in {A B} (f g : A → list B) (l : list A) :
  (∀ x, x ∈ l → f x = g x) → flat_map f l = flat_map g l.
Proof.
  induction l as [|a l IH]; intros H; simpl; [done |].
  rewrite H by left. rewrite IH; [done |]. intros x Hx. apply H. by right.
Qed.

Lemma flatten_complete (order : list nat) :
  order ≡ₚ seq 0 (length chunks) →
  flatten_in_order (results (run_loop ch doc_name chunks order))
  = flat_map (outcome_of ch doc_name chunks) (seq 0 (length chunks)).
Proof.
  intros Hp. unfold flatten_in_order. rewrite sorted_keys_complete by done.
  apply flat_map_ext_in. intros k _. by apply results_total_complete.
Qed.

Lemma validate_complete (order : list nat) :
  order ≡ₚ seq 0 (length chunks) →
  validate_in_order (results (run_loop ch doc_name chunks order))
  = flat_map (fun k => omap model_validate (outcome_of ch doc_name chunks k)) (seq 0 (length chunks)).
Proof.
  intros Hp. unfold validate_in_order. rewrite sorted_keys_complete by done.
  apply flat_map_ext_in. intros k _. by rewrite results_total_complete.
Qed.

Lemma omap_flat_map {A B C} (f : B → option C) (g : A → list B) (l : list A) :
  omap f (flat_map g l) = flat_map (fun x => omap f (g x)) l.
Proof. induction l as [|a l IH]; simpl; [done | by rewrite omap_app, IH]. Qed.

Lemma validate_is_omap (m : gmap nat (list dict)) :
  validate_in_order m = omap model_validate (flatten_in_order m).
Proof. unfold validate_in_order, flatten_in_order. by rewrite omap_flat_map. Qed.

Lemma flat_map_seq_imap {A B} (f : nat → A → list B) (l : list A) :
  flat_map (fun k => match l !! k with Some x => f k x | None => [] end)
           (seq 0 (length l))
  = concat (imap f l).
Proof.
  induction l as [|x l IH] using rev_ind; [done |].
  rewrite length_app, Nat.add_1_r, seq_S, flat_map_app, imap_app, concat_app.
  simpl. rewrite lookup_app_r, Nat.sub_diag, Nat.add_0_r, !app_nil_r by lia.
  simpl. f_equal. rewrite <- IH. apply flat_map_ext_in.
  intros k Hk%elem_of_seq. by rewrite lookup_app_l by lia.
Qed.

Lemma flat_map_outcomes :
  flat_map (outcome_of ch doc_name chunks) (seq 0 (length chunks))
  = concat (per_segment_records ch doc_name chunks).
Proof. unfold per_segment_records. by rewrite <- flat_map_seq_imap. Qed.

Lemma omap_concat {A B} (f : A → option B) (ls : list (list A)) :
  omap f (concat ls) = concat (map (fun l : list A => omap f l) ls).
Proof. induction ls as [|l ls IH]; simpl; [done | by rewrite omap_app, IH]. Qed.

(** The file holds the flattened dictionary after the last completion. *)
Lemma intermediate_last (rs : list (nat * list dict)) (st : loop_state) :
  rs ≠ [] →
  last (intermediate (fold_left on_completed rs st))
  = Some (flatten_in_order (results (fold_left on_completed rs st))).
Proof.
  destruct rs as [|r rs _] using rev_ind; [done |]. intros _.
  rewrite fold_left_app. simpl. apply last_snoc.
Qed.

Lemma intermediate_none (order : list nat) :
  chunks = [] → intermediate (run_loop ch doc_name chunks order) = [].
Proof.
  intros ->. unfold run_loop. induction order as [|k order IH]; [done |].
  simpl. exact IH.
Qed.

End LoopFacts.

(* ===================================================================== *)
(** ** Ordered aggregation and the checkpoint *)
(* ===================================================================== *)

Section Orchestrator.
Import PyStr DocumentLoader Models Extractor Props.

Lemma orchestrate_value (ch : Chains) (doc_name : string)
    (chunks : list Document) (order : list nat) :
  order ≡ₚ seq 0 (length chunks) →
  fst (orchestrate_compliance_analysis ch doc_name chunks order)
  = concat (per_segment_requirements ch doc_name chunks).
Proof.
  intros Hp. unfold orchestrate_compliance_analysis. cbn [fst].
  rewrite validate_is_omap, flatten_complete, flat_map_outcomes by done.
  apply omap_concat.
Qed.

Lemma completions_nonempty (ch : Chains) (doc_name : string)
    (chunks : list Document) (order : list nat) :
  chunks ≠ [] → order ≡ₚ seq 0 (length chunks) →
  omap (fun k => submit_all ch doc_name chunks !! k) order ≠ [].
Proof.
  intros Hne Hp. rewrite completed_futures by by apply permutation_in_range.
  destruct order as [|k order]; [|done].
  apply Permutation_length in Hp. rewrite length_seq in Hp.
  by destruct chunks.
Qed.

Lemma last_checkpoint (ch : Chains) (doc_name : string)
    (chunks : list Document) (order : list nat) :
  chunks ≠ [] → order ≡ₚ seq 0 (length chunks) →
  last (intermediate (run_loop ch doc_name chunks order))
  = Some (concat (per_segment_records ch doc_name chunks)).
Proof.
  intros Hne Hp. unfold run_loop.
  rewrite intermediate_last by by apply completions_nonempty.
  fold (run_loop ch doc_name chunks order).
  by rewrite flatten_complete, flat_map_outcomes.
Qed.

Lemma omap_length_all {A B} (f : A → option B) (l : list A) :
  Forall (fun x => is_Some (f x)) l → length (omap f l) = length l.
Proof.
  induction 1 as [|x l [y Hy] _ IH]; simpl; [done |]. rewrite Hy. simpl. f_equal. exact IH.
Qed.



Lemma run_loop_no_chunks (ch : Chains) (doc_name : string) (order : list nat) :
  run_loop ch doc_name [] order = mkLoop ∅ [].
Proof.
  unfold run_loop. induction order as [|k order IH]; [done |].
  simpl. exact IH.
Qed.

(** C3 (amended): with every extraction completed and at least one
    segment, the last snapshot written to the checkpoint is the ordered
    concatenation of the extracted records, and the value returned is that
    snapshot with every record validated and the invalid records dropped
    (same length when none is dropped); the stand-alone script returns the
    last snapshot itself.  With no segment nothing is written to the
    checkpoint, by the package and by the script, and both return the
    empty list. *)
Theorem final_value_validates_last_checkpoint (ch : Chains) (doc_name : string)
    (chunks : list Document) (order : list nat) :
  order ≡ₚ seq 0 (length chunks) →
  (chunks ≠ [] →
   (∃ snapshot,
       last (snd (orchestrate_compliance_analysis ch doc_name chunks order))
       = Some snapshot
       ∧ snapshot = concat (per_segment_records ch doc_name chunks)
       ∧ fst (orchestrate_compliance_analysis ch doc_name chunks order)
         = omap model_validate snapshot
       ∧ (Forall (fun d => is_Some (model_validate d)) snapshot →
          length (fst (orchestrate_compliance_analysis ch doc_name chunks order))
          = length snapshot))
   ∧ last (snd (Legacy.orchestrate_compliance_analysis ch chunks order))
     = Some (fst (Legacy.orchestrate_compliance_analysis ch chunks order)))
  ∧ (chunks = [] →
     snd (orchestrate_compliance_analysis ch doc_name chunks order) = []
     ∧ fst (orchestrate_compliance_analysis ch doc_name chunks order) = []
     ∧ snd (Legacy.orchestrate_compliance_analysis ch chunks order) = []
     ∧ fst (Legacy.orchestrate_compliance_analysis ch chunks order) = []).
Proof.
  intros Hp. split.
  - intros Hne. split.
    + exists (concat (per_segment_records ch doc_name chunks)).
      assert (fst (orchestrate_compliance_analysis ch doc_name chunks order)
              = omap model_validate (concat (per_segment_records ch doc_name chunks)))
        as Hret.
      { rewrite orchestrate_value by done. unfold per_segment_requirements.
        by rewrite omap_concat. }
      repeat split.
      * by apply last_checkpoint.
      * exact Hret.
      * intros Hall. rewrite Hret. by apply omap_length_all.
    + unfold Legacy.orchestrate_compliance_analysis. cbn [fst snd].
      unfold run_loop. by rewrite intermediate_last by by apply completions_nonempty.
  - intros ->.
    unfold orchestrate_compliance_analysis, Legacy.orchestrate_compliance_analysis.
    by rewrite !run_loop_no_chunks.
Qed.

Lemma final_value_validates_last_checkpoint_witness :
  ((∃ snapshot,
       last (snd (orchestrate_compliance_analysis Examples.chains "ISO 27001"
                    [Examples.risk_chunk; Examples.scope_chunk] [1; 0]))
       = Some snapshot
       ∧ snapshot = concat (per_segment_records Examples.chains "ISO 27001"
                              [Examples.risk_chunk; Examples.scope_chunk])
       ∧ fst (orchestrate_compliance_analysis Examples.chains "ISO 27001"
                [Examples.risk_chunk; Examples.scope_chunk] [1; 0])
         = omap model_validate snapshot
       ∧ (Forall (fun d => is_Some (model_validate d)) snapshot →
          length (fst (orchestrate_compliance_analysis Examples.chains "ISO 27001"
                         [Examples.risk_chunk; Examples.scope_chunk] [1; 0]))
          = length snapshot))
   ∧ last (snd (Legacy.orchestrate_compliance_analysis Examples.chains
                  [Examples.risk_chunk; Examples.scope_chunk] [1; 0]))
     = Some (fst (Legacy.orchestrate_compliance_analysis Examples.chains
                    [Examples.risk_chunk; Examples.scope_chunk] [1; 0])))
  ∧ (snd (orchestrate_compliance_analysis Examples.chains "ISO 27001" [] []) = []
     ∧ fst (orchestrate_compliance_analysis Examples.chains "ISO 27001" [] []) = []
     ∧ snd (Legacy.orchestrate_compliance_analysis Examples.chains [] []) = []
     ∧ fst (Legacy.orchestrate_compliance_analysis Examples.chains [] []) = []).
Proof.
  split.
  - apply (final_value_validates_last_checkpoint Examples.chains "ISO 27001"
             [Examples.risk_chunk; Examples.scope_chunk] [1; 0]).
    + apply perm_swap.
    + discriminate.
  - apply (final_value_validates_last_checkpoint Examples.chains "ISO 27001" [] []).
    + apply perm_nil.
    + reflexivity.
Defined.

(** C3, as stated, fails: one segment whose only record has no
    [requirement_title].  The checkpoint holds the record, the returned
    list is empty. *)
Lemma final_value_differs_from_checkpoint :
  let run := orchestrate_compliance_analysis Examples.untitled_chains "ISO 27001"
               [Examples.scope_chunk] [0] in
  ∃ snapshot,
    last (snd run) = Some snapshot
    ∧ length snapshot = 1
    ∧ fst run = []
    ∧ map model_dump (fst run) ≠ snapshot.
Proof.
  eexists. split; [vm_compute; reflexivity |]. by vm_compute.
Qed.

End Orchestrator.

(* ===================================================================== *)
(** ** Article numbers and segment labels *)
(* ===================================================================== *)

Section Labelling.
Import PyStr DocumentLoader Models Extractor Props.

Lemma token_6_1_2 : numeric_token "6.1.2".
Proof.
  exists "6", ["1"; "2"]. repeat split; try done.
  repeat constructor; done.
Qed.

(** C7 (amended): the article number of a segment is the greedy leading
    match of digits followed by groups of a dot and digits in its id, and
    the raw id when the id has no such prefix; an id made of "6.1.2" and a
    rest that does not continue the token (so not "6.1.2.1 ..." or
    "6.1.20 ...") yields "6.1.2"; every record the stage emits carries
    this article number and the segment's text, whatever the service
    reported. *)
Theorem article_number_from_section_id (ch : Chains) (chunk : Document)
    (doc_name : string) (i : nat) (rest : string) :
  token_ends rest →
  let section_id := section_id_of chunk in
  let article := section_num_of section_id in
  (∀ t, extract_section_num section_id = Some t
        ↔ ∃ r, section_id = t +:+ r ∧ numeric_token t ∧ token_ends r)
  ∧ (∀ t, extract_section_num section_id = Some t → article = t)
  ∧ ((¬ ∃ t r, section_id = t +:+ r ∧ numeric_token t) → article = section_id)
  ∧ section_num_of ("6.1.2" +:+ rest) = "6.1.2"
  ∧ (∀ d, d ∈ snd (process_chunk i chunk ch doc_name) →
          dict_get "article_number" d = Some (JStr article)
          ∧ dict_get "article_text" d = Some (JStr (page_content chunk)))
  ∧ (∀ r, r ∈ omap model_validate (snd (process_chunk i chunk ch doc_name)) →
          article_number r = article ∧ article_text r = page_content chunk).
Proof.
  intros Hrest section_id article.
  split; [intros t; apply extract_section_num_spec |].
  split; [apply section_num_of_some |].
  split.
  { intros Hno. apply section_num_of_none. by apply extract_section_num_none. }
  split.
  { apply section_num_of_some, extract_section_num_complete;
      [apply token_6_1_2 | done]. }
  split.
  - intros d Hd. by eapply process_chunk_overridden.
  - intros r (d & Hd & Hv)%list_elem_of_omap.
    apply process_chunk_overridden in Hd as [Hn Hx].
    apply model_validate_fields in Hv as [Hn' Hx'].
    unfold article, section_id. split; congruence.
Qed.

Lemma article_number_from_section_id_witness :
  extract_section_num (section_id_of Examples.risk_chunk) = Some "6.1.2"
  ∧ section_num_of (section_id_of Examples.risk_chunk) = "6.1.2"
  ∧ section_num_of ("6.1.2" +:+ " Determining risks") = "6.1.2"
  ∧ ∀ r, r ∈ omap model_validate
               (snd (process_chunk 0 Examples.risk_chunk Examples.chains "ISO 27001")) →
         article_number r = "6.1.2"
         ∧ article_text r = page_content Examples.risk_chunk.
Proof.
  assert (token_ends " Determining risks") as Hends
    by (split; [reflexivity | discriminate]).
  pose proof (article_number_from_section_id Examples.chains Examples.risk_chunk
                "ISO 27001" 0 " Determining risks" Hends) as H.
  cbv zeta in H. destruct H as (Hiff & Hart & _ & H612 & _ & Hval).
  assert (extract_section_num (section_id_of Examples.risk_chunk) = Some "6.1.2")
    as Hex.
  { apply Hiff. exists " Determining risks".
    split; [reflexivity | split; [apply token_6_1_2 | exact Hends]]. }
  split; [exact Hex |]. split; [exact (Hart _ Hex) |]. split; [exact H612 |].
  intros r Hr. rewrite <- (Hart _ Hex). exact (Hval r Hr).
Defined.

(** C7, as stated, fails: the id "6.1.2.1 General" starts with "6.1.2" and
    its article number is "6.1.2.1". *)
Lemma article_number_longer_than_prefix :
  (∃ r, "6.1.2.1 General" = "6.1.2" +:+ r)
  ∧ section_num_of "6.1.2.1 General" = "6.1.2.1"
  ∧ section_num_of "6.1.2.1 General" ≠ "6.1.2".
Proof. split; [by exists ".1 General" | by vm_compute]. Qed.

Lemma section_id_of_label_chunk (doc_type : string) (i : nat) (chunk : Document) :
  section_id_of (label_chunk doc_type i chunk)
  = section_id_for doc_type i (page_content chunk).
Proof.
  unfold section_id_of, label_chunk. cbn [metadata].
  rewrite lookup_insert_ne by discriminate. by rewrite lookup_insert_eq.
Qed.

Lemma section_id_dpdp (doc_type : string) (i : nat) (content : string) :
  dpdp_marked doc_type (strip (first_line content)) →
  section_id_for doc_type i content = "Section_" +:+ of_nat (i + 1).
Proof.
  intros H%dpdp_section_marker_spec. unfold section_id_for. by rewrite H.
Qed.

Lemma line_test_spec (line : string) :
  starts_with_numbering line || isdigit line || contains "ANNEX" (upper line) = true
  ↔ numbered line ∨ purely_numeric line ∨ mentions_annex line.
Proof.
  rewrite !orb_true_iff, starts_with_numbering_spec, isdigit_spec, contains_spec.
  unfold mentions_annex. tauto.
Qed.

Lemma section_id_first_line (doc_type : string) (i : nat) (content : string) :
  let line := strip (first_line content) in
  ¬ dpdp_marked doc_type line →
  numbered line ∨ purely_numeric line ∨ mentions_annex line →
  section_id_for doc_type i content = line.
Proof.
  intros line Hd Hl. unfold section_id_for. fold line.
  destruct (dpdp_section_marker doc_type line) eqn:E.
  - by apply dpdp_section_marker_spec in E.
  - apply line_test_spec in Hl. by rewrite Hl.
Qed.

Lemma section_id_fallback (doc_type : string) (i : nat) (content : string) :
  let line := strip (first_line content) in
  ¬ dpdp_marked doc_type line →
  ¬ (numbered line ∨ purely_numeric line ∨ mentions_annex line) →
  section_id_for doc_type i content = "section_" +:+ of_nat (i + 1).
Proof.
  intros line Hd Hl. unfold section_id_for. fold line.
  destruct (dpdp_section_marker doc_type line) eqn:E.
  - by apply dpdp_section_marker_spec in E.
  - destruct (_ || _ || _) eqn:E'; [|done]. by apply line_test_spec in E'.
Qed.

Lemma section_id_empty (doc_type : string) (i : nat) :
  section_id_for doc_type i "" = "section_" +:+ of_nat (i + 1).
Proof.
  unfold section_id_for, dpdp_section_marker. simpl.
  by rewrite andb_false_r.
Qed.

(** C8 (amended): piece [i] of the splitter keeps its position and text.
    For a DPDP document whose trimmed first line contains "sect" in any
    letter case, or "sec. ", the id is "Section_{i+1}".  Otherwise the id is
    the trimmed first line when that line starts with one of "1." to "49.",
    is not empty and made of digits only, or contains "annex" in any letter
    case; in every other case, a piece with empty text included, the id is
    "section_{i+1}".  The ordinal the orchestrator uses is the 0-based
    position [i]. *)
Theorem segment_labelling
    (split_documents : string → list Document → list Document)
    (extract_document_name : string → string) (documents : list Document)
    (i : nat) (chunk : Document) (ch : Chains) (doc_name : string) :
  let loaded := load_and_chunk_pdf split_documents extract_document_name documents in
  let doc_type := fst (fst loaded) in
  let chunks := snd loaded in
  split_documents doc_type documents !! i = Some chunk →
  let line := strip (first_line (page_content chunk)) in
  ∃ labelled,
    chunks !! i = Some labelled
    ∧ length chunks = length (split_documents doc_type documents)
    ∧ page_content labelled = page_content chunk
    ∧ fst <$> submit_all ch doc_name chunks !! i = Some i
    ∧ (dpdp_marked doc_type line →
       section_id_of labelled = "Section_" +:+ of_nat (i + 1))
    ∧ (¬ dpdp_marked doc_type line →
       numbered line ∨ purely_numeric line ∨ mentions_annex line →
       section_id_of labelled = line)
    ∧ (¬ dpdp_marked doc_type line →
       ¬ (numbered line ∨ purely_numeric line ∨ mentions_annex line) →
       section_id_of labelled = "section_" +:+ of_nat (i + 1))
    ∧ (page_content chunk = "" →
       section_id_of labelled = "section_" +:+ of_nat (i + 1)).
Proof.
  intros loaded doc_type chunks Hi line.
  exists (label_chunk doc_type i chunk).
  assert (chunks !! i = Some (label_chunk doc_type i chunk)) as Hl.
  { unfold chunks, loaded, load_and_chunk_pdf, label_chunks. cbn [snd].
    rewrite list_lookup_imap.
    unfold doc_type, loaded, load_and_chunk_pdf in Hi. cbn [fst] in Hi.
    by rewrite Hi. }
  rewrite section_id_of_label_chunk. split_and!.
  - exact Hl.
  - apply length_imap.
  - done.
  - unfold submit_all. by rewrite list_lookup_imap, Hl.
  - apply section_id_dpdp.
  - apply section_id_first_line.
  - apply section_id_fallback.
  - intros ->. apply section_id_empty.
Qed.

Lemma segment_labelling_witness :
  ∃ labelled,
    snd (load_and_chunk_pdf Examples.page_splitter Examples.no_title
           Examples.iso_pages) !! 1 = Some labelled
    ∧ page_content labelled = "6.1.2 Determining risks"
    ∧ fst <$> submit_all Examples.chains "ISO 27001"
                (snd (load_and_chunk_pdf Examples.page_splitter Examples.no_title
                        Examples.iso_pages)) !! 1 = Some 1
    ∧ section_id_of labelled = "6.1.2 Determining risks".
Proof.
  destruct (segment_labelling Examples.page_splitter Examples.no_title
              Examples.iso_pages 1 (mkDocument "6.1.2 Determining risks" ∅)
              Examples.chains "ISO 27001" eq_refl)
    as (labelled & Hl & _ & Hc & Ho & _ & Hline & _).
  exists labelled. split_and!; [exact Hl | exact Hc | exact Ho |].
  apply Hline.
  - intros [Hdpdp _]. vm_compute in Hdpdp. discriminate.
  - left. apply starts_with_numbering_spec. reflexivity.
Defined.

(** C8, as stated, fails.  In a DPDP document the piece whose first line
    is "7. Notice under section 5" starts with a small integer and a
    period, yet its id is "Section_1"; and "Annex A (normative)" holds no
    all-caps ANNEX, yet it is the id of its piece. *)
Lemma labelling_counterexample :
  (fst (fst (load_and_chunk_pdf Examples.notice_splitter Examples.no_title
               Examples.dpdp_pages)) = "DPDP"
   ∧ numbered "7. Notice under section 5"
   ∧ section_id_of <$> snd (load_and_chunk_pdf Examples.notice_splitter
                              Examples.no_title Examples.dpdp_pages) !! 0
     = Some "Section_1")
  ∧ (¬ substring "ANNEX" "Annex A (normative)"
     ∧ ¬ numbered "Annex A (normative)"
     ∧ ¬ purely_numeric "Annex A (normative)"
     ∧ section_id_of <$> label_chunks "ISO"
                           [mkDocument "Annex A (normative)
Reference control objectives" ∅] !! 0
       = Some "Annex A (normative)").
Proof.
  split; [split; [| split] | split; [| split; [| split]]].
  - by vm_compute.
  - by apply starts_with_numbering_spec.
  - by vm_compute.
  - by intros H%contains_spec.
  - by intros H%starts_with_numbering_spec.
  - by intros H%isdigit_spec.
  - by vm_compute.
Qed.

End Labelling.

(* ===================================================================== *)
(** ** The task lifecycle *)
(* ===================================================================== *)

Section Lifecycle.
Import PyStr Models Api Props.

Lemma Qlt_bool_spec (x y : Q) : Qlt_bool x y = true ↔ (x < y)%Q.
Proof.
  unfold Qlt_bool. rewrite negb_true_iff. split.
  - intros H. apply Qnot_le_lt. intros Hle%Qle_bool_iff. congruence.
  - intros Hlt. destruct (Qle_bool y x) eqn:E; [|done].
    apply Qle_bool_iff in E. by apply Qlt_not_le in Hlt.
Qed.

(** Below 5.0 MB means fewer than 5 * 1024 * 1024 bytes. *)
Lemma file_size_lt_iff (content : list Byte.byte) :
  (file_size_mb content < 5)%Q ↔ (Z.of_nat (length content) < 5242880)%Z.
Proof.
  unfold file_size_mb, Qlt, Qdiv, Qmult, Qinv, inject_Z. simpl. lia.
Qed.

Lemma str_in_spec (x : string) (xs : list string) : str_in x xs = true ↔ x ∈ xs.
Proof.
  unfold str_in. rewrite existsb_exists. split.
  - intros (y & Hy & ->%String.eqb_eq). by apply list_elem_of_In.
  - intros H. exists x. split; [by apply list_elem_of_In | apply String.eqb_refl].
Qed.

(** C9: an upload whose file name, lower-cased, does not end with ".pdf"
    is rejected with status 400 and nothing else happens: no read, no
    file written, no task record, no background task, no pipeline call. *)
Theorem non_pdf_rejected (env : Env) (filename : string)
    (content : list Byte.byte) (w : World) :
  (¬ ∃ stem, lower filename = stem +:+ ".pdf") →
  analyze_pdf env filename content w
  = (inl (HTTPException 400 "File must be a PDF"), w)
  ∧ trace (snd (analyze_pdf env filename content w)) = trace w
  ∧ task_store (snd (analyze_pdf env filename content w)) = task_store w
  ∧ background_tasks (snd (analyze_pdf env filename content w))
    = background_tasks w.
Proof.
  intros Hno. unfold analyze_pdf.
  destruct (endswith ".pdf" (lower filename)) eqn:E.
  - by apply endswith_spec in E.
  - done.
Qed.

Lemma non_pdf_rejected_witness :
  analyze_pdf Examples.env "Report.PDF.docx" [] Examples.queued_world
  = (inl (HTTPException 400 "File must be a PDF"), Examples.queued_world)
  ∧ trace (snd (analyze_pdf Examples.env "Report.PDF.docx" [] Examples.queued_world))
    = trace Examples.queued_world
  ∧ task_store (snd (analyze_pdf Examples.env "Report.PDF.docx" [] Examples.queued_world))
    = task_store Examples.queued_world
  ∧ background_tasks
      (snd (analyze_pdf Examples.env "Report.PDF.docx" [] Examples.queued_world))
    = background_tasks Examples.queued_world.
Proof.
  apply non_pdf_rejected.
  intros H%endswith_spec. vm_compute in H. discriminate.
Defined.

(** C10: a successful cancel rewrites [status], [message] and
    [updated_at] of the record named by the id; its other fields, every
    other record, the background tasks and the effects are unchanged. *)
Theorem cancel_frame (env : Env) (tid : string) (w w' : World) (msg : string) :
  cancel_task env tid w = (inr msg, w') →
  ∃ t t',
    task_store w !! tid = Some t
    ∧ task_store w' !! tid = Some t'
    ∧ status t' = "cancelled"
    ∧ message t' = Some "Task cancelled by user"
    ∧ updated_at t' = now env
    ∧ task_id t' = task_id t
    ∧ progress t' = progress t
    ∧ result_path t' = result_path t
    ∧ intermediate_path t' = intermediate_path t
    ∧ created_at t' = created_at t
    ∧ (∀ k, k ≠ tid → task_store w' !! k = task_store w !! k)
    ∧ dom (task_store w') = dom (task_store w)
    ∧ background_tasks w' = background_tasks w
    ∧ trace w' = trace w.
Proof.
  unfold cancel_task. destruct (task_store w !! tid) as [t|] eqn:Ht; [|discriminate].
  destruct (str_in _ _); [discriminate |]. intros H. injection H as <- <-.
  eexists t, _. cbn [task_store background_tasks trace].
  rewrite lookup_insert_eq. repeat split; try done.
  - intros k Hk. by rewrite lookup_insert_ne.
  - rewrite dom_insert_L. apply elem_of_dom_2 in Ht. set_solver.
Qed.

Lemma cancel_frame_witness :
  ∃ t t',
    task_store Examples.queued_world !! "t1" = Some t
    ∧ task_store (snd (cancel_task Examples.env_later "t1" Examples.queued_world))
        !! "t1" = Some t'
    ∧ status t' = "cancelled"
    ∧ message t' = Some "Task cancelled by user"
    ∧ updated_at t' = now Examples.env_later
    ∧ task_id t' = task_id t
    ∧ progress t' = progress t
    ∧ result_path t' = result_path t
    ∧ intermediate_path t' = intermediate_path t
    ∧ created_at t' = created_at t
    ∧ (∀ k, k ≠ "t1" →
         task_store (snd (cancel_task Examples.env_later "t1" Examples.queued_world)) !! k
         = task_store Examples.queued_world !! k)
    ∧ dom (task_store (snd (cancel_task Examples.env_later "t1" Examples.queued_world)))
      = dom (task_store Examples.queued_world)
    ∧ background_tasks (snd (cancel_task Examples.env_later "t1" Examples.queued_world))
      = background_tasks Examples.queued_world
    ∧ trace (snd (cancel_task Examples.env_later "t1" Examples.queued_world))
      = trace Examples.queued_world.
Proof.
  apply (cancel_frame Examples.env_later "t1" Examples.queued_world _
           "Task cancelled successfully").
  reflexivity.
Defined.

Lemma cancel_task_accepted (env : Env) (tid : string) (w : World) (t : TaskStatus) :
  task_store w !! tid = Some t →
  status t ≠ "completed" → status t ≠ "failed" →
  cancel_task env tid w
  = (inr "Task cancelled successfully",
     mkWorld (<[tid := mkTaskStatus (task_id t) "cancelled" (progress t)
                         (Some "Task cancelled by user") (result_path t)
                         (intermediate_path t) (created_at t) (now env)]>
                (task_store w))
             (background_tasks w) (trace w)).
Proof.
  intros Ht Hc Hf. unfold cancel_task. rewrite Ht.
  destruct (str_in (status t) _) eqn:E; [|done].
  apply str_in_spec in E. set_solver.
Qed.

Lemma cancel_task_refused (env : Env) (tid : string) (w : World) (t : TaskStatus) :
  task_store w !! tid = Some t →
  status t = "completed" ∨ status t = "failed" →
  cancel_task env tid w
  = (inl (HTTPException 400 "Cannot cancel a completed or failed task"), w).
Proof.
  intros Ht Hs. unfold cancel_task. rewrite Ht.
  destruct (str_in (status t) _) eqn:E; [done |].
  apply not_true_iff_false in E. rewrite str_in_spec in E. set_solver.
Qed.

Lemma cancel_task_unknown (env : Env) (tid : string) (w : World) :
  task_store w !! tid = None →
  cancel_task env tid w = (inl (HTTPException 404 "Task not found"), w).
Proof. intros Ht. unfold cancel_task. by rewrite Ht. Qed.

(** C4 (amended): cancel succeeds if and only if the task exists and its
    status is neither "completed" nor "failed"; it then sets the status to
    "cancelled" with the user message.  So it succeeds from "pending" and
    "processing", and again on a task that is already "cancelled".  It
    fails with status 400 for a completed or failed task and with 404 for
    an unknown id, leaving everything as it was. *)
Theorem cancel_accepted_iff (env env' : Env) (tid : string) (w : World) :
  let r := cancel_task env tid w in
  ((∃ msg, fst r = inr msg)
   ↔ ∃ t, task_store w !! tid = Some t
          ∧ status t ≠ "completed" ∧ status t ≠ "failed")
  ∧ ((∃ msg, fst r = inr msg) →
     ∃ t', task_store (snd r) !! tid = Some t'
           ∧ status t' = "cancelled"
           ∧ message t' = Some "Task cancelled by user")
  ∧ (∀ t, task_store w !! tid = Some t →
          status t = "pending" ∨ status t = "processing" ∨ status t = "cancelled" →
          ∃ msg, fst r = inr msg)
  ∧ (∀ t, task_store w !! tid = Some t →
          status t = "completed" ∨ status t = "failed" →
          r = (inl (HTTPException 400 "Cannot cancel a completed or failed task"), w))
  ∧ (task_store w !! tid = None →
     r = (inl (HTTPException 404 "Task not found"), w))
  ∧ ((∃ msg, fst r = inr msg) →
     ∃ msg', fst (cancel_task env' tid (snd r)) = inr msg').
Proof.
  intros r.
  assert ((∃ msg, fst r = inr msg) →
          ∃ t, task_store w !! tid = Some t
               ∧ status t ≠ "completed" ∧ status t ≠ "failed"
               ∧ r = (inr "Task cancelled successfully",
                      mkWorld (<[tid := mkTaskStatus (task_id t) "cancelled"
                                          (progress t) (Some "Task cancelled by user")
                                          (result_path t) (intermediate_path t)
                                          (created_at t) (now env)]> (task_store w))
                              (background_tasks w) (trace w))) as Hinv.
  { intros [msg Hmsg]. subst r.
    destruct (task_store w !! tid) as [t|] eqn:Ht.
    - destruct (decide (status t = "completed")) as [Hc|Hc].
      { rewrite (cancel_task_refused env tid w t) in Hmsg by auto. discriminate. }
      destruct (decide (status t = "failed")) as [Hf|Hf].
      { rewrite (cancel_task_refused env tid w t) in Hmsg by auto. discriminate. }
      exists t. repeat split; try done. by apply cancel_task_accepted.
    - rewrite cancel_task_unknown in Hmsg by done. discriminate. }
  split; [split |].
  - intros H. destruct (Hinv H) as (t & ? & ? & ? & _). by exists t.
  - intros (t & Ht & Hc & Hf). subst r.
    rewrite (cancel_task_accepted env tid w t) by done. by eexists.
  - split; [| split; [| split; [| split]]].
    + intros H. destruct (Hinv H) as (t & _ & _ & _ & ->). cbn [snd task_store].
      rewrite lookup_insert_eq. by eexists.
    + intros t Ht Hs. subst r.
      rewrite (cancel_task_accepted env tid w t); [by eexists | done | |];
        destruct Hs as [-> | [-> | ->]]; discriminate.
    + intros t Ht Hs. by apply cancel_task_refused with t.
    + apply cancel_task_unknown.
    + intros H. destruct (Hinv H) as (t & _ & _ & _ & ->). cbn [snd].
      erewrite cancel_task_accepted; [by eexists | | |]; cbn [task_store].
      * apply lookup_insert_eq.
      * discriminate.
      * discriminate.
Qed.

Lemma cancel_accepted_iff_witness :
  let r := cancel_task Examples.env "t1" Examples.queued_world in
  (∃ msg, fst r = inr msg)
  ∧ (∃ t', task_store (snd r) !! "t1" = Some t'
           ∧ status t' = "cancelled"
           ∧ message t' = Some "Task cancelled by user")
  ∧ (∃ msg', fst (cancel_task Examples.env_later "t1" (snd r)) = inr msg').
Proof.
  pose proof (cancel_accepted_iff Examples.env Examples.env_later "t1"
                Examples.queued_world) as H.
  cbv zeta in H. destruct H as (_ & Hset & Hok & _ & _ & Hagain).
  assert (∃ msg, fst (cancel_task Examples.env "t1" Examples.queued_world) = inr msg)
    as Hacc.
  { apply (Hok Examples.pending_task); [reflexivity | left; reflexivity]. }
  split; [exact Hacc |]. split; [exact (Hset Hacc) | exact (Hagain Hacc)].
Defined.

(** C4, as stated, fails: a task that is already "cancelled", a terminal
    state, is cancelled again with success. *)
Lemma cancel_twice_succeeds :
  let w1 := snd (cancel_task Examples.env "t1" Examples.queued_world) in
  status_of "t1" w1 = Some "cancelled"
  ∧ terminal "cancelled" = true
  ∧ fst (cancel_task Examples.env_later "t1" w1) = inr "Task cancelled successfully".
Proof. by vm_compute. Qed.

Lemma get_status_unknown (tid : string) (w : World) :
  task_store w !! tid = None →
  get_analysis_status tid w = inl (HTTPException 404 "Task not found").
Proof. intros H. unfold get_analysis_status. by rewrite H. Qed.

(** C6 (amended): an accepted upload (a ".pdf" name, the temporary copy
    written, a fresh id) of fewer than 5 * 1024 * 1024 bytes, that is of
    less than 5.0 MB, is analysed within the request: the pipeline is
    called there, the task store is left as it was, so the status of the id
    is not found, and nothing is queued; the result comes back inline when
    the pipeline returns and the result file is written, and the answer is
    500 when the pipeline or that write raises.  From 5 * 1024 * 1024 bytes
    on, a record with status "pending" is stored under the id, the id is
    returned, the pipeline is not called within the request and the queued
    background task is the one that calls it. *)
Theorem size_routing (env env' : Env) (filename : string)
    (content : list Byte.byte) (w : World) :
  (∃ stem, lower filename = stem +:+ ".pdf") →
  open_error env ("temp_" +:+ uuid4 env +:+ ".pdf") = None →
  task_store w !! uuid4 env = None →
  let task_id := uuid4 env in
  let temp_path := "temp_" +:+ task_id +:+ ".pdf" in
  let intermediate_filename := "intermediate_" +:+ strftime env (now env) +:+ ".json" in
  let r := analyze_pdf env filename content w in
  ((Z.of_nat (length content) < 5 * 1024 * 1024)%Z →
     task_store (snd r) = task_store w
     ∧ background_tasks (snd r) = background_tasks w
     ∧ EvPipeline temp_path intermediate_filename ∈ trace (snd r)
     ∧ (∀ id, get_analysis_status id (snd r) = get_analysis_status id w)
     ∧ get_analysis_status task_id (snd r) = inl (HTTPException 404 "Task not found")
     ∧ (∀ result,
          pipeline env temp_path intermediate_filename = Returned result →
          open_error env ("results_" +:+ task_id +:+ ".json") = None →
          fst r = inr (Completed ("Analysis completed for " +:+ filename)
                         (mkAnalysisResult filename 0 (length result) (length result)
                            result "completed" None (now env) (now env))))
     ∧ (∀ e,
          pipeline env temp_path intermediate_filename = Raised e →
          fst r = inl (HTTPException 500 ("Analysis failed: " +:+ e)))
     ∧ (∀ result e,
          pipeline env temp_path intermediate_filename = Returned result →
          open_error env ("results_" +:+ task_id +:+ ".json") = Some e →
          fst r = inl (HTTPException 500 ("Analysis failed: " +:+ e))))
  ∧ ((5 * 1024 * 1024 ≤ Z.of_nat (length content))%Z →
     (∃ msg, fst r = inr (Queued task_id msg))
     ∧ task_store (snd r)
       = <[task_id := mkTaskStatus task_id "pending" 0
                        (Some "Analysis queued (large file)") None None
                        (now env) (now env)]> (task_store w)
     ∧ status_of task_id (snd r) = Some "pending"
     ∧ background_tasks (snd r) = background_tasks w ++ [(task_id, temp_path, filename)]
     ∧ trace (snd r) = trace w ++ [EvRead; EvWrite temp_path]
     ∧ ∃ w' intermediate',
         process_pdf_analysis env' task_id temp_path filename (snd r) = Some w'
         ∧ EvPipeline temp_path intermediate' ∈ trace w').
Proof.
  intros Hpdf%endswith_spec Hopen Hfresh task_id temp_path intermediate_filename r.
  subst r task_id temp_path intermediate_filename.
  unfold analyze_pdf. rewrite Hpdf, Hopen. cbn [negb].
  split.
  - intros Hlt.
    assert (Qlt_bool (file_size_mb content) 5 = true) as ->
      by (apply Qlt_bool_spec, file_size_lt_iff; lia).
    destruct (pipeline env _ _) as [e|result] eqn:Hp.
    + cbn [snd fst emit task_store background_tasks trace].
      split_and!; try done.
      * set_solver.
      * by apply get_status_unknown.
      * by intros e' [= <-].
    + destruct (open_error env ("results_" +:+ uuid4 env +:+ ".json")) eqn:Hf;
        cbn [snd fst emit task_store background_tasks trace].
      * split_and!; try done.
        -- set_solver.
        -- by apply get_status_unknown.
        -- by intros result' e' _ [= <-].
      * split_and!; try done.
        -- set_solver.
        -- by apply get_status_unknown.
        -- by intros result' [= <-] _.
  - intros Hge. destruct (Qlt_bool (file_size_mb content) 5) eqn:E.
    { apply Qlt_bool_spec, file_size_lt_iff in E. lia. }
    cbn [snd fst emit task_store background_tasks trace].
    split_and!; try done.
    + by eexists.
    + unfold status_of. cbn [task_store]. by rewrite lookup_insert_eq.
    + by rewrite <- app_assoc.
    + unfold process_pdf_analysis, process_begin. cbn [task_store].
      rewrite lookup_insert_eq. cbn [mbind option_bind].
      eexists _, ("intermediate_" +:+ strftime env' (now env') +:+ ".json").
      split; [reflexivity |].
      destruct (pipeline env' _ _) as [e|[|x result]]; cbn [process_end];
        [| | destruct (open_error env' _)];
        cbn [emit update_task trace]; set_solver.
Qed.

Lemma five_mb_upload_length :
  Z.of_nat (length Invariants.five_mb_upload) = 5242880%Z.
Proof.
  unfold Invariants.five_mb_upload. rewrite repeat_length. apply N_nat_Z.
Qed.

Lemma size_routing_witness :
  (let r := analyze_pdf Examples.env "Policy.PDF"
              [Byte.x25; Byte.x50; Byte.x44; Byte.x46] Examples.empty_world in
   task_store (snd r) = task_store Examples.empty_world
   ∧ background_tasks (snd r) = background_tasks Examples.empty_world
   ∧ get_analysis_status "t1" (snd r) = inl (HTTPException 404 "Task not found")
   ∧ EvPipeline "temp_t1.pdf" "intermediate_2025-01-01_00-00-00.json" ∈ trace (snd r)
   ∧ fst r = inr (Completed "Analysis completed for Policy.PDF"
                    (mkAnalysisResult "Policy.PDF" 0 0 0 [] "completed" None 1000 1000)))
  ∧ (let r := analyze_pdf Examples.env "Policy.PDF" Invariants.five_mb_upload
                Examples.empty_world in
     (∃ msg, fst r = inr (Queued "t1" msg))
     ∧ status_of "t1" (snd r) = Some "pending"
     ∧ background_tasks (snd r)
       = background_tasks Examples.empty_world ++ [("t1", "temp_t1.pdf", "Policy.PDF")]
     ∧ trace (snd r) = trace Examples.empty_world ++ [EvRead; EvWrite "temp_t1.pdf"]).
Proof.
  split.
  - pose proof (size_routing Examples.env Examples.env_later "Policy.PDF"
                  [Byte.x25; Byte.x50; Byte.x44; Byte.x46] Examples.empty_world
                  (ex_intro _ "policy" eq_refl) eq_refl eq_refl) as H.
    cbv zeta in H. destruct H as [Hsync _].
    destruct Hsync as (Hs & Hb & Hp & _ & Hn & Hres & _); [simpl; lia |].
    split; [exact Hs |]. split; [exact Hb |]. split; [exact Hn |].
    split; [exact Hp |]. apply (Hres []); reflexivity.
  - pose proof (size_routing Examples.env Examples.env_later "Policy.PDF"
                  Invariants.five_mb_upload Examples.empty_world
                  (ex_intro _ "policy" eq_refl) eq_refl eq_refl) as H.
    cbv zeta in H. destruct H as [_ Hasync].
    destruct Hasync as (Hq & _ & Hst & Hbg & Htr & _).
    { rewrite five_mb_upload_length. lia. }
    split; [exact Hq |]. split; [exact Hst |]. split; [exact Hbg | exact Htr].
Defined.

(** C6, as stated, fails for a submitted document that is not accepted or
    not analysed to the end.  A 4-byte upload named "notes.txt" is answered
    400: no pipeline call, no result.  A 5 MB upload of that name is
    answered 400 as well: no task record, nothing queued.  A 4-byte
    "policy.pdf" whose pipeline raises is answered 500, with no result. *)
Lemma small_upload_without_result :
  let content := [Byte.x25; Byte.x50; Byte.x44; Byte.x46] in
  (Z.of_nat (length content) < 5 * 1024 * 1024)%Z
  ∧ analyze_pdf Examples.env "notes.txt" content Examples.empty_world
    = (inl (HTTPException 400 "File must be a PDF"), Examples.empty_world)
  ∧ trace (snd (analyze_pdf Examples.env "notes.txt" content Examples.empty_world)) = []
  ∧ (5 * 1024 * 1024 ≤ Z.of_nat (length Invariants.five_mb_upload))%Z
  ∧ analyze_pdf Examples.env "notes.txt" Invariants.five_mb_upload Examples.empty_world
    = (inl (HTTPException 400 "File must be a PDF"), Examples.empty_world)
  ∧ task_store (snd (analyze_pdf Examples.env "notes.txt" Invariants.five_mb_upload
                       Examples.empty_world)) = ∅
  ∧ fst (analyze_pdf Invariants.raising_env "policy.pdf" content Examples.empty_world)
    = inl (HTTPException 500 "Analysis failed: model service unreachable").
Proof.
  cbv zeta. split_and!.
  - simpl. lia.
  - reflexivity.
  - reflexivity.
  - rewrite five_mb_upload_length. lia.
  - reflexivity.
  - reflexivity.
  - reflexivity.
Qed.

(** The asynchronous branch is taken from 5 * 1024 * 1024 bytes on. *)
Lemma large_upload_is_queued (env : Env) (filename : string)
    (content : list Byte.byte) (w : World) :
  (∃ stem, lower filename = stem +:+ ".pdf") →
  open_error env ("temp_" +:+ uuid4 env +:+ ".pdf") = None →
  (5242880 ≤ Z.of_nat (length content))%Z →
  status_of (uuid4 env) (snd (analyze_pdf env filename content w)) = Some "pending".
Proof.
  intros Hpdf%endswith_spec Hopen Hlen. unfold analyze_pdf.
  rewrite Hpdf, Hopen. cbn [negb].
  destruct (Qlt_bool (file_size_mb content) 5) eqn:E.
  - apply Qlt_bool_spec, file_size_lt_iff in E. lia.
  - unfold status_of. cbn [snd task_store]. by rewrite lookup_insert_eq.
Qed.

(** Whatever the status was, the end of a successful pipeline run writes
    "completed" and the result paths into the record. *)
Lemma process_end_overwrites (env : Env)
    (tid pdf_path original_filename intermediate_filename : string)
    (x : ComplianceRequirement) (result : list ComplianceRequirement)
    (w : World) (t : TaskStatus) :
  task_store w !! tid = Some t →
  open_error env ("results_" +:+ tid +:+ ".json") = None →
  task_store (process_end env tid pdf_path original_filename intermediate_filename
                (Returned (x :: result)) w) !! tid
  = Some (set_completed env (length (x :: result))
            ("results_" +:+ tid +:+ ".json") intermediate_filename t).
Proof.
  intros Ht Hopen. unfold process_end. rewrite Hopen.
  cbn [emit update_task task_store]. by rewrite lookup_alter_eq, Ht.
Qed.

(** An empty result makes the background task fail, whatever produced it. *)
Lemma process_end_empty_result (env : Env)
    (tid pdf_path original_filename intermediate_filename : string)
    (w : World) (t : TaskStatus) :
  task_store w !! tid = Some t →
  task_store (process_end env tid pdf_path original_filename intermediate_filename
                (Returned []) w) !! tid
  = Some (set_failed env "list index out of range" t).
Proof.
  intros Ht. unfold process_end.
  cbn [emit update_task task_store]. by rewrite lookup_alter_eq, Ht.
Qed.

(** C2: the code leaves the terminal state "cancelled".  A task cancelled
    while its pipeline runs is "cancelled"; when the pipeline returns, the
    same record becomes "completed" and receives the result paths.  A task
    cancelled while still queued becomes "processing" when it starts. *)
Theorem cancelled_task_is_overwritten :
  let w1 := run Examples.env [BgBegin "t1"; Cancel "t1"] Examples.queued_world in
  let w2 :=
    step Examples.env_later
      (BgEnd "t1" "temp_t1.pdf" "policy.pdf" "intermediate_2025-01-01_00-00-00.json"
         (Returned [Examples.risk_requirement])) w1 in
  status_of "t1" w1 = Some "cancelled"
  ∧ terminal "cancelled" = true
  ∧ status_of "t1" w2 = Some "completed"
  ∧ result_path <$> task_store w2 !! "t1" = Some (Some "results_t1.json")
  ∧ intermediate_path <$> task_store w2 !! "t1"
    = Some (Some "intermediate_2025-01-01_00-00-00.json")
  ∧ message <$> task_store w2 !! "t1"
    = Some (Some "Analysis completed. Found 1 requirements.")
  ∧ status_of "t1"
      (run Examples.env [Cancel "t1"; BgBegin "t1"] Examples.queued_world)
    = Some "processing".
Proof. by vm_compute. Qed.

(** C5: one failed call makes an asynchronous task fail.  With a single
    segment whose discovery call raises, the extraction stage returns no
    requirement and raises nothing; [process_pdf_analysis] then reads
    [result[0]] of the empty result and marks the task "failed".  The
    synchronous path completes on the same result.  (When the call fails for
    the middle one of three segments, the two others still give their
    requirements.) *)
Theorem failed_call_fails_background_task :
  length (fst (Extractor.orchestrate_compliance_analysis Examples.chains
                 "ISO 27001"
                 [Examples.risk_chunk; Examples.scope_chunk; Examples.risk_chunk]
                 [1; 2; 0])) = 2
  ∧ Extractor.extract_requirements_from_chunk Examples.failing_chains
      Examples.scope_chunk "Compliance Document" = []
  ∧ fst (Extractor.orchestrate_compliance_analysis Examples.failing_chains
           "Compliance Document" [Examples.scope_chunk] [0]) = []
  ∧ (∃ w',
       process_pdf_analysis Examples.env "t1" "temp_t1.pdf" "policy.pdf"
         Examples.queued_world = Some w'
       ∧ status_of "t1" w' = Some "failed"
       ∧ message <$> task_store w' !! "t1"
         = Some (Some "Analysis failed: list index out of range"))
  ∧ fst (analyze_pdf Examples.env "policy.pdf" [] Examples.empty_world)
    = inr (Completed "Analysis completed for policy.pdf"
             (mkAnalysisResult "policy.pdf" 0 0 0 [] "completed" None 1000 1000)).
Proof.
  split; [by vm_compute |].
  split; [by vm_compute |]. split; [by vm_compute |]. split; [|by vm_compute].
  eexists. split; [vm_compute; reflexivity | by vm_compute].
Qed.

End Lifecycle.

(* ===================================================================== *)
(** ** Settings and the model client *)
(* ===================================================================== *)

Section ConfigFacts.
Import PyStr Config.

Lemma truthy_spec (v : option string) :
  truthy v = true ↔ ∃ k, v = Some k ∧ k ≠ "".
Proof.
  destruct v as [[|c k]|]; simpl; split; try done.
  - intros (k & [= <-] & Hk). done.
  - intros _. by eexists.
  - intros (k & [=] & _).
Qed.

(** X1: [create_llm] calls the constructor of the Groq client exactly when
    the provider is "groq" and the API key is a non-empty string, that of
    the Ollama client exactly when the provider is "ollama", and raises in
    every other case; the keyword arguments it passes are the model, the
    key or base URL and the temperature of the settings.  What the client
    object then stores is the library's matter and not stated. *)
Theorem create_llm_client (s : Settings) (l : llm) :
  create_llm s = inr l
  ↔ (llm_provider s = "groq"
     ∧ (∃ k, groq_api_key s = Some k ∧ k ≠ "")
     ∧ l = ChatGroq (groq_model s) (groq_api_key s) (temperature s))
    ∨ (llm_provider s = "ollama"
       ∧ l = OllamaLLM (ollama_model s) (ollama_base_url s) (temperature s)).
Proof.
  unfold create_llm, validate_llm_provider. cbn [existsb].
  destruct (String.eqb_spec (llm_provider s) "ollama") as [Ho|Ho];
    destruct (String.eqb_spec (llm_provider s) "groq") as [Hg|Hg];
    cbn [orb negb andb].
  - congruence.
  - split.
    + intros [= <-]. by right.
    + intros [(? & _)|(_ & ->)]; [congruence | done].
  - destruct (truthy (groq_api_key s)) eqn:Hk; cbn [negb].
    + apply truthy_spec in Hk. split.
      * intros [= <-]. by left.
      * intros [(_ & _ & ->)|(? & _)]; [done | congruence].
    + split; [discriminate |].
      intros [(_ & Hk' & _)|(? & _)]; [|congruence].
      apply truthy_spec in Hk'. congruence.
  - split; [discriminate |]. intros [(? & _)|(? & _)]; congruence.
Qed.

End ConfigFacts.

(* ===================================================================== *)
(** ** Serialisation for JSON *)
(* ===================================================================== *)

Section SerializeFacts.
Import ApiFiles.

Context (isoformat : Z → string).

Lemma pyval_nested_ind (P : pyval → Prop) :
  P PNone → (∀ b, P (PBool b)) → (∀ n, P (PInt n)) → (∀ s, P (PStr s)) →
  (∀ t, P (PDatetime t)) →
  (∀ l, Forall P l → P (PList l)) →
  (∀ d, Forall (fun kv => P (snd kv)) d → P (PDict d)) →
  (∀ items, P (PTuple items)) → (∀ r, P (POther r)) →
  ∀ v, P v.
Proof.
  intros HN HB HI HS HD HL HDict HT HO. fix IH 1.
  intros [| b | n | s | t | l | d | items | r].
  - exact HN.
  - apply HB.
  - apply HI.
  - apply HS.
  - apply HD.
  - apply HL. induction l as [|x l IHl]; constructor; [apply IH | exact IHl].
  - apply HDict. induction d as [|[k x] d IHd]; constructor; [apply IH | exact IHd].
  - apply HT.
  - apply HO.
Qed.

Lemma serialize_datetime_free (v : pyval) :
  datetime_free (serialize_for_json isoformat v) = true.
Proof.
  induction v as [| | | | | l IH | d IH | |] using pyval_nested_ind; try done.
  - cbn [serialize_for_json datetime_free]. apply forallb_forall.
    intros y (x & <- & Hx)%in_map_iff.
    by apply (proj1 (Forall_forall _ _) IH), list_elem_of_In.
  - cbn [serialize_for_json datetime_free]. apply forallb_forall.
    intros y ([k x] & <- & Hx)%in_map_iff.
    by apply (proj1 (Forall_forall _ _) IH (k, x)), list_elem_of_In.
Qed.

Lemma serialize_plain (v : pyval) :
  datetime_free v = true → serialize_for_json isoformat v = v.
Proof.
  induction v as [| | | | | l IH | d IH | |] using pyval_nested_ind; try done.
  - cbn [serialize_for_json datetime_free]. intros Hl. f_equal.
    rewrite forallb_forall in Hl.
    induction IH as [|x l Hx _ IHl]; [done |]. cbn [map]. f_equal.
    + apply Hx, Hl. by left.
    + apply IHl. intros y Hy. apply Hl. by right.
  - cbn [serialize_for_json datetime_free]. intros Hd. f_equal.
    rewrite forallb_forall in Hd.
    induction IH as [|[k x] d Hx _ IHd]; [done |]. cbn [map]. f_equal.
    + f_equal. apply Hx. apply (Hd (k, x)). by left.
    + apply IHd. intros y Hy. apply Hd. by right.
Qed.

Lemma serialize_keys (d : list (pyval * pyval)) :
  map fst (map (fun kv : pyval * pyval =>
                  let (k, v) := kv in (k, serialize_for_json isoformat v)) d)
  = map fst d.
Proof. induction d as [|[k v] d IH]; simpl; [done | by rewrite IH]. Qed.

(** X2: in the result of [serialize_for_json] no [datetime] is left at a
    position reached through list items and dict values, and serialising
    the result again changes nothing.  A dict keeps its keys as they are
    and in their order, a [datetime] among them included; a tuple and a
    value of any other type are returned as they are, so a [datetime]
    inside a tuple stays. *)
Theorem serialize_for_json_clean (v : pyval) (d : list (pyval * pyval))
    (items : list pyval) (r : string) :
  datetime_free (serialize_for_json isoformat v) = true
  ∧ serialize_for_json isoformat (serialize_for_json isoformat v)
    = serialize_for_json isoformat v
  ∧ (∃ d', serialize_for_json isoformat (PDict d) = PDict d'
           ∧ map fst d' = map fst d)
  ∧ serialize_for_json isoformat (PTuple items) = PTuple items
  ∧ serialize_for_json isoformat (POther r) = POther r
  ∧ serialize_for_json isoformat Invariants.keyed_by_time
    = Invariants.keyed_by_time.
Proof.
  split; [apply serialize_datetime_free |].
  split; [apply serialize_plain, serialize_datetime_free |].
  split; [eexists; split; [reflexivity | apply serialize_keys] |].
  done.
Qed.

(** X3: a value that holds no [datetime] is returned as it is. *)
Theorem serialize_for_json_plain (v : pyval) :
  datetime_free v = true → serialize_for_json isoformat v = v.
Proof. apply serialize_plain. Qed.

End SerializeFacts.

Lemma serialize_for_json_plain_witness :
  ApiFiles.serialize_for_json Invariants.iso8601 Invariants.plain_value
  = Invariants.plain_value.
Proof. apply serialize_for_json_plain. reflexivity. Defined.

(* ===================================================================== *)
(** ** Document type, metadata and well-formed section ids *)
(* ===================================================================== *)

Section LoaderFacts.
Import PyStr DocumentLoader Extractor Props Invariants.

Lemma lower_char_idem (c : ascii) : lower_char (lower_char c) = lower_char c.
Proof. destruct c as [[] [] [] [] [] [] [] []]; reflexivity. Qed.

Lemma lower_idem (s : string) : lower (lower s) = lower s.
Proof. induction s as [|c s IH]; simpl; [done | by rewrite lower_char_idem, IH]. Qed.

(** X4: the document type is decided by the lower-cased sample alone, in
    the order ISO, DPDP, RBI: "ISO" exactly when it contains "iso" or
    "international standard"; "DPDP" exactly when it does not and contains
    one of the DPDP phrases; "RBI" exactly when neither holds and it contains
    "rbi" or "reserve bank"; "GENERAL" exactly when it contains none. *)
Theorem detect_document_type_priority (text : string) :
  let iso := substring "iso" (lower text)
             ∨ substring "international standard" (lower text) in
  let dpdp := substring "digital personal data protection" (lower text)
              ∨ substring "data principal" (lower text) in
  let rbi := substring "rbi" (lower text) ∨ substring "reserve bank" (lower text) in
  (detect_document_type text = "ISO" ↔ iso)
  ∧ (detect_document_type text = "DPDP" ↔ ¬ iso ∧ dpdp)
  ∧ (detect_document_type text = "RBI" ↔ ¬ iso ∧ ¬ dpdp ∧ rbi)
  ∧ (detect_document_type text = "GENERAL" ↔ ¬ iso ∧ ¬ dpdp ∧ ¬ rbi)
  ∧ detect_document_type (lower text) = detect_document_type text.
Proof.
  intros iso dpdp rbi.
  assert (contains "iso" (lower text)
          || contains "international standard" (lower text) = true ↔ iso) as Hiso
    by (unfold iso; by rewrite orb_true_iff, !contains_spec).
  assert (contains "digital personal data protection" (lower text)
          || contains "data principal" (lower text) = true ↔ dpdp) as Hdpdp
    by (unfold dpdp; by rewrite orb_true_iff, !contains_spec).
  assert (contains "rbi" (lower text)
          || contains "reserve bank" (lower text) = true ↔ rbi) as Hrbi
    by (unfold rbi; by rewrite orb_true_iff, !contains_spec).
  assert (detect_document_type (lower text) = detect_document_type text) as Hlow
    by (unfold detect_document_type; by rewrite lower_idem).
  unfold detect_document_type in *.
  destruct (contains "iso" _ || _);
    destruct (contains "digital personal data protection" _ || _);
    destruct (contains "rbi" _ || _);
    split_and!; try exact Hlow; split; try discriminate; intros; try done;
    intuition discriminate.
Qed.

(** X5: labelling keeps what the splitter attached to a piece: piece [i]
    comes out at position [i] with its text, the key "doc_type" set to the
    detected type, a "section_id", and every other metadata key as it
    was. *)
Theorem labelling_keeps_metadata
    (split_documents : string → list Document → list Document)
    (extract_document_name : string → string) (documents : list Document)
    (i : nat) (chunk : Document) (key : string) :
  let loaded := load_and_chunk_pdf split_documents extract_document_name documents in
  let doc_type := fst (fst loaded) in
  split_documents doc_type documents !! i = Some chunk →
  key ≠ "section_id" → key ≠ "doc_type" →
  ∃ labelled,
    snd loaded !! i = Some labelled
    ∧ page_content labelled = page_content chunk
    ∧ metadata labelled !! "doc_type" = Some doc_type
    ∧ is_Some (metadata labelled !! "section_id")
    ∧ metadata labelled !! key = metadata chunk !! key.
Proof.
  intros loaded doc_type Hi Hk1 Hk2. exists (label_chunk doc_type i chunk).
  split.
  { unfold loaded, load_and_chunk_pdf, label_chunks. cbn [snd].
    rewrite list_lookup_imap.
    unfold doc_type, loaded, load_and_chunk_pdf in Hi. cbn [fst] in Hi.
    by rewrite Hi. }
  unfold label_chunk. cbn [page_content metadata]. split_and!.
  - done.
  - apply lookup_insert_eq.
  - rewrite lookup_insert_ne by discriminate. rewrite lookup_insert_eq. by eexists.
  - by rewrite !lookup_insert_ne.
Qed.

Lemma labelling_keeps_metadata_witness :
  ∃ labelled,
    snd (load_and_chunk_pdf Examples.page_splitter Examples.no_title
           [Examples.risk_chunk; loaded_page]) !! 1 = Some labelled
    ∧ page_content labelled = page_content loaded_page
    ∧ metadata labelled !! "doc_type" = Some "GENERAL"
    ∧ is_Some (metadata labelled !! "section_id")
    ∧ metadata labelled !! "source" = Some "iso9001.pdf".
Proof.
  apply (labelling_keeps_metadata Examples.page_splitter Examples.no_title
           [Examples.risk_chunk; loaded_page] 1 loaded_page "source");
    [reflexivity | discriminate | discriminate].
Defined.

Lemma all_chars_impl (P Q : ascii → bool) (s : string) :
  (∀ c, P c = true → Q c = true) → all_chars P s = true → all_chars Q s = true.
Proof.
  intros HPQ. induction s as [|c s IH]; simpl; [done |].
  intros [Hc Hs]%andb_true_iff. by rewrite (HPQ c Hc), IH.
Qed.

Lemma string_of_uint_digits (d : Decimal.uint) :
  all_chars is_digit09 (NilEmpty.string_of_uint d) = true.
Proof. induction d; simpl; done. Qed.

Lemma of_nat_digits (n : nat) :
  all_chars is_digit09 (of_nat n) = true ∧ of_nat n ≠ "".
Proof.
  unfold of_nat, NilZero.string_of_uint.
  destruct (Nat.to_uint n) eqn:E; simpl; try done;
    split; try done; apply string_of_uint_digits.
Qed.

Lemma of_nat_inj (n m : nat) : of_nat n = of_nat m → n = m.
Proof.
  unfold of_nat. intros H. apply Unsigned.to_uint_inj.
  assert (∀ k, Nat.to_uint k ≠ Decimal.Nil) as Hnn.
  { intros k Hk. pose proof (Unsigned.to_of (Nat.to_uint k)) as Hto.
    rewrite Unsigned.of_to, Hk in Hto. simpl in Hto. discriminate. }
  pose proof (NilZero.usu _ (Hnn n)) as Hn. pose proof (NilZero.usu _ (Hnn m)) as Hm.
  rewrite H in Hn. congruence.
Qed.

Lemma all_chars_lstrip (P : ascii → bool) (s : string) :
  all_chars P s = true → all_chars P (lstrip s) = true.
Proof.
  induction s as [|c s IH]; simpl; [done |].
  intros [Hc Hs]%andb_true_iff. destruct (char_isspace c); [by apply IH |].
  simpl. by rewrite Hc, Hs.
Qed.

Lemma all_chars_rstrip (P : ascii → bool) (s : string) :
  all_chars P s = true → all_chars P (rstrip s) = true.
Proof.
  induction s as [|c s IH]; simpl; [done |].
  intros [Hc Hs]%andb_true_iff.
  destruct (char_isspace c && is_empty (rstrip s)); [done |].
  simpl. by rewrite Hc, IH.
Qed.

Lemma first_line_single (s : string) : single_line (first_line s).
Proof.
  unfold single_line. induction s as [|c s IH]; simpl; [done |].
  destruct (code c =? 10) eqn:E; [done |]. simpl. by rewrite E, IH.
Qed.

Lemma rstrip_idem (s : string) : rstrip (rstrip s) = rstrip s.
Proof.
  induction s as [|c s IH]; simpl; [done |].
  destruct (char_isspace c && is_empty (rstrip s)) eqn:E; [done |].
  simpl. by rewrite IH, E.
Qed.

Lemma lstrip_rstrip_lstrip (s : string) : lstrip (rstrip (lstrip s)) = rstrip (lstrip s).
Proof.
  induction s as [|c s IH]; simpl; [done |].
  destruct (char_isspace c) eqn:Hc; [exact IH |].
  simpl. rewrite Hc. simpl. by rewrite Hc.
Qed.

Lemma strip_idem (s : string) : strip (strip s) = strip s.
Proof. unfold strip. by rewrite lstrip_rstrip_lstrip, rstrip_idem. Qed.

Lemma strip_no_space (s : string) :
  all_chars (fun c => negb (char_isspace c)) s = true → strip s = s.
Proof.
  unfold strip. induction s as [|c s IH]; simpl; [done |].
  intros [Hc Hs]%andb_true_iff. apply negb_true_iff in Hc. rewrite Hc.
  simpl. rewrite Hc. simpl. f_equal.
  destruct s as [|x s]; [done |].
  simpl in Hs. apply andb_true_iff in Hs as [Hx Hs'].
  apply negb_true_iff in Hx.
  specialize (IH ltac:(simpl; by rewrite Hx, Hs')).
  simpl in IH. rewrite Hx in IH. exact IH.
Qed.

Lemma digit_not_space (c : ascii) :
  is_digit09 c = true → negb (char_isspace c) = true.
Proof. destruct c as [[] [] [] [] [] [] [] []]; done. Qed.

Lemma digit_not_line_feed (c : ascii) :
  is_digit09 c = true → negb (code c =? 10) = true.
Proof. destruct c as [[] [] [] [] [] [] [] []]; done. Qed.

Lemma line_test_empty :
  starts_with_numbering "" || isdigit "" || contains "ANNEX" (upper "") = false.
Proof. reflexivity. Qed.

(** A positional id: a prefix without blanks or line feeds, then digits. *)
Lemma positional_id_wellformed (p : string) (n : nat) :
  p ≠ "" →
  all_chars (fun c => negb (char_isspace c)) p = true →
  single_line p →
  p +:+ of_nat n ≠ "" ∧ single_line (p +:+ of_nat n)
  ∧ strip (p +:+ of_nat n) = p +:+ of_nat n.
Proof.
  intros Hne Hsp Hlf. destruct (of_nat_digits n) as [Hd _]. split_and!.
  - destruct p; [done | discriminate].
  - unfold single_line. rewrite all_chars_app, Hlf. simpl.
    by apply (all_chars_impl is_digit09), Hd; apply digit_not_line_feed.
  - apply strip_no_space. rewrite all_chars_app, Hsp. simpl.
    by apply (all_chars_impl is_digit09), Hd; apply digit_not_space.
Qed.

Lemma section_num_of_nonempty (s : string) : s ≠ "" → section_num_of s ≠ "".
Proof.
  intros Hs. unfold section_num_of.
  destruct (extract_section_num s) as [t|] eqn:E; [|done].
  by destruct (is_empty t) eqn:Ht; [| destruct t].
Qed.

(** X6: whatever the document type, the position and the text of a piece,
    its section id is not empty, holds no line feed and has no leading or
    trailing whitespace; so the article number derived from it is not empty
    either. *)
Theorem section_id_wellformed (doc_type : string) (i : nat) (content : string) :
  section_id_for doc_type i content ≠ ""
  ∧ single_line (section_id_for doc_type i content)
  ∧ strip (section_id_for doc_type i content) = section_id_for doc_type i content
  ∧ section_num_of (section_id_for doc_type i content) ≠ "".
Proof.
  assert (section_id_for doc_type i content ≠ ""
          ∧ single_line (section_id_for doc_type i content)
          ∧ strip (section_id_for doc_type i content)
            = section_id_for doc_type i content) as (H1 & H2 & H3).
  { unfold section_id_for.
    destruct (dpdp_section_marker _ _); [by apply positional_id_wellformed |].
    destruct (_ || _ || _) eqn:E; [|by apply positional_id_wellformed].
    split_and!.
    - intros Hempty. rewrite Hempty in E. by rewrite line_test_empty in E.
    - unfold strip. apply all_chars_rstrip, all_chars_lstrip, first_line_single.
    - apply strip_idem. }
  split_and!; try done. by apply section_num_of_nonempty.
Qed.

(** X7: the article number is a prefix of the section id, and deriving it
    again from itself changes nothing. *)
Theorem section_num_of_idempotent (section_id : string) :
  (∃ rest, section_id = section_num_of section_id +:+ rest)
  ∧ section_num_of (section_num_of section_id) = section_num_of section_id.
Proof.
  destruct (extract_section_num section_id) as [t|] eqn:E.
  - rewrite (section_num_of_some _ _ E).
    apply extract_section_num_sound in E as (rest & -> & Ht & _). split.
    + by exists rest.
    + apply section_num_of_some. rewrite <- (str_app_nil_r t) at 1.
      by apply extract_section_num_complete.
  - rewrite (section_num_of_none _ E). split; [| by apply section_num_of_none].
    exists "". by rewrite str_app_nil_r.
Qed.

Lemma contains_annex_without_a (s : string) :
  all_chars (fun c => negb (Ascii.eqb c "A")) s = true →
  contains "ANNEX" s = false.
Proof.
  induction s as [|c s IH]; [done |].
  intros [Hc Hs]%andb_true_iff. cbn [contains]. rewrite (IH Hs), orb_false_r.
  cbn [startswith]. apply negb_true_iff in Hc.
  by rewrite Ascii.eqb_sym, Hc.
Qed.

Lemma upper_without_a (s : string) :
  all_chars (fun c => all_chars (fun x => negb (Ascii.eqb x "A")) (upper_char c)) s
  = true →
  all_chars (fun x => negb (Ascii.eqb x "A")) (upper s) = true.
Proof.
  induction s as [|c s IH]; [done |].
  intros [Hc Hs]%andb_true_iff. cbn [upper]. by rewrite all_chars_app, Hc, IH.
Qed.

Lemma digit_upper_without_a (c : ascii) :
  is_digit09 c = true →
  all_chars (fun x => negb (Ascii.eqb x "A")) (upper_char c) = true.
Proof. destruct c as [[] [] [] [] [] [] [] []]; done. Qed.

(** A positional id fails the test made on first lines. *)
Lemma positional_id_fails_line_test (p : string) (n : nat) :
  p = "section_" ∨ p = "Section_" →
  starts_with_numbering (p +:+ of_nat n) || isdigit (p +:+ of_nat n)
  || contains "ANNEX" (upper (p +:+ of_nat n)) = false.
Proof.
  intros Hp. destruct (of_nat_digits n) as [Hd _].
  assert (contains "ANNEX" (upper (p +:+ of_nat n)) = false) as ->.
  { apply contains_annex_without_a, upper_without_a. rewrite all_chars_app.
    rewrite (all_chars_impl is_digit09 _ _ digit_upper_without_a Hd).
    by destruct Hp as [-> | ->]. }
  destruct Hp as [-> | ->]; by vm_compute.
Qed.

Lemma positional_id_inj (p q : string) (n m : nat) :
  p = "section_" ∨ p = "Section_" → q = "section_" ∨ q = "Section_" →
  p +:+ of_nat n = q +:+ of_nat m → n = m.
Proof.
  intros [-> | ->] [-> | ->] H; simpl in H; try discriminate;
    injection H as H; by apply of_nat_inj.
Qed.

(** X8: a positional id is unique in its document: when piece [i] is
    labelled "section_{i+1}" or "Section_{i+1}", no piece at another
    position, whatever its text, receives the same id. *)
Theorem positional_ids_unique (doc_type : string) (i j : nat)
    (content_i content_j : string) :
  i ≠ j →
  section_id_for doc_type i content_i = "section_" +:+ of_nat (i + 1)
  ∨ section_id_for doc_type i content_i = "Section_" +:+ of_nat (i + 1) →
  section_id_for doc_type j content_j ≠ section_id_for doc_type i content_i.
Proof.
  intros Hij Hi Heq.
  assert (∃ p, (p = "section_" ∨ p = "Section_")
               ∧ section_id_for doc_type i content_i = p +:+ of_nat (i + 1))
    as (p & Hp & Hid) by (destruct Hi; eauto).
  rewrite Hid in Heq. clear Hi Hid. unfold section_id_for in Heq.
  destruct (dpdp_section_marker _ _).
  { apply positional_id_inj in Heq; [lia | auto | done]. }
  destruct (_ || _ || _) eqn:E.
  - rewrite Heq in E. by rewrite positional_id_fails_line_test in E.
  - apply positional_id_inj in Heq; [lia | auto | done].
Qed.

Lemma positional_ids_unique_witness :
  section_id_for "GENERAL" 3 "12"
  ≠ section_id_for "GENERAL" 11 "Scope of this document".
Proof.
  apply positional_ids_unique; [lia | left; reflexivity].
Defined.

End LoaderFacts.

(* ===================================================================== *)
(** ** Records of a segment, and the checkpoints of a run *)
(* ===================================================================== *)

Section StageFacts.
Import DocumentLoader Models Extractor Props Invariants.

Lemma override_fields_dicts (sn tx : string) (raw : list json) :
  Forall is_dict raw →
  ∃ reqs, override_fields sn tx raw = Some reqs
          ∧ Forall2 (fun j d =>
                       ∃ d0, j = JDict d0
                             ∧ d = dict_set "article_text" (JStr tx)
                                     (dict_set "article_number" (JStr sn) d0))
              raw reqs.
Proof.
  intros Hd. unfold override_fields.
  induction Hd as [|j raw Hj _ (reqs & Hreqs & IH)]; [by eexists |].
  destruct j as [| | | | |d0]; try done.
  exists (dict_set "article_text" (JStr tx)
            (dict_set "article_number" (JStr sn) d0) :: reqs).
  split; [|constructor; [by eexists | done]].
  apply mapM_Some. constructor; [done | by apply mapM_Some].
Qed.

Lemma override_fields_not_dict (sn tx : string) (raw : list json) :
  ¬ Forall is_dict raw → override_fields sn tx raw = None.
Proof.
  intros Hnd. apply mapM_None.
  apply not_Forall_Exists in Hnd; [|intros []; simpl; apply _].
  eapply Exists_impl; [exact Hnd |]. intros j Hj. unfold compose in Hj.
  destruct j; simpl in *; done.
Qed.

(** X9: the answer of the discovery call is taken whole or not at all:
    when every item of the returned list is an object, the segment gets one
    record per item; when one item is not, the segment gets no record, the
    objects beside it included. *)
Theorem discovery_all_or_nothing (ch : Chains) (chunk : Document)
    (doc_name : string) (raw : list json) :
  req_chain ch doc_name (section_num_of (section_id_of chunk)) (page_content chunk)
  = Returns (JList raw) →
  (Forall is_dict raw →
   length (extract_requirements_from_chunk ch chunk doc_name) = length raw)
  ∧ (¬ Forall is_dict raw →
     extract_requirements_from_chunk ch chunk doc_name = []).
Proof.
  intros Hraw. unfold extract_requirements_from_chunk. rewrite Hraw. split.
  - intros Hd.
    destruct (override_fields_dicts (section_num_of (section_id_of chunk))
                (page_content chunk) raw Hd) as (reqs & -> & H2).
    symmetry. by eapply Forall2_length.
  - intros Hnd. by rewrite override_fields_not_dict.
Qed.

Lemma discovery_all_or_nothing_witness :
  extract_requirements_from_chunk mixed_chains Examples.risk_chunk "ISO 27001" = [].
Proof.
  refine (proj2 (discovery_all_or_nothing mixed_chains Examples.risk_chunk
                   "ISO 27001" [JDict Examples.risk_record; JStr "n/a"] eq_refl) _).
  intros H. inversion H as [|? ? _ H']. inversion H' as [|? ? Hs _]. exact Hs.
Defined.

Lemma extract_controls_requirement_only (ch : Chains) (d d' : dict) :
  dict_get "requirement" d = dict_get "requirement" d' →
  extract_controls_for_requirement ch d = extract_controls_for_requirement ch d'.
Proof. intros H. unfold extract_controls_for_requirement. by rewrite H. Qed.

(** X10: when the discovery call returns a list of objects, the records of
    the segment answer to its items one to one and in order; each record
    keeps every key of its item except "article_number", "article_text" and
    "controls", and its "controls" is the list the control call gives for
    the item's own "requirement" value. *)
Theorem records_follow_the_answer (i : nat) (ch : Chains) (chunk : Document)
    (doc_name : string) (raw : list json) :
  req_chain ch doc_name (section_num_of (section_id_of chunk)) (page_content chunk)
  = Returns (JList raw) →
  Forall is_dict raw →
  Forall2 (fun j d =>
             ∃ d0, j = JDict d0
                   ∧ (∀ k, ¬ stage_key k → dict_get k d = dict_get k d0)
                   ∧ dict_get "controls" d
                     = Some (JList (extract_controls_for_requirement ch d0)))
    raw (snd (process_chunk i chunk ch doc_name)).
Proof.
  intros Hraw Hd. unfold process_chunk, extract_requirements_from_chunk.
  rewrite Hraw. cbn [snd].
  destruct (override_fields_dicts (section_num_of (section_id_of chunk))
              (page_content chunk) raw Hd) as (reqs & -> & H2).
  apply Forall2_fmap_r. eapply Forall2_impl; [exact H2 |].
  intros j d (d0 & -> & ->). exists d0. split_and!; [done | |].
  - intros k Hk. unfold stage_key in Hk.
    rewrite !dict_get_set_ne; [done | |  |]; intros ->; tauto.
  - rewrite dict_get_set_eq. do 2 f_equal.
    apply extract_controls_requirement_only.
    by rewrite !dict_get_set_ne by discriminate.
Qed.

Lemma records_follow_the_answer_witness :
  Forall2 (fun j d =>
             ∃ d0, j = JDict d0
                   ∧ (∀ k, ¬ stage_key k → dict_get k d = dict_get k d0)
                   ∧ dict_get "controls" d
                     = Some (JList (extract_controls_for_requirement Examples.chains d0)))
    [JDict Examples.risk_record; JDict Examples.untitled_record]
    (snd (process_chunk 0 Examples.risk_chunk Examples.chains "ISO 27001")).
Proof.
  apply records_follow_the_answer; [reflexivity |].
  repeat constructor.
Defined.

End StageFacts.

Section CheckpointFacts.
Import DocumentLoader Models Extractor Props Invariants.


Lemma intermediate_length (rs : list (nat * list dict)) (st : loop_state) :
  length (intermediate (fold_left on_completed rs st))
  = length (intermediate st) + length rs.
Proof.
  revert st. induction rs as [|r rs IH]; intros st; simpl; [lia |].
  rewrite IH. simpl. rewrite length_app. simpl. lia.
Qed.

Lemma intermediate_lookup (rs : list (nat * list dict)) (st : loop_state) (j : nat) :
  j < length rs →
  intermediate (fold_left on_completed rs st) !! (length (intermediate st) + j)
  = Some (flatten_in_order (results (fold_left on_completed (firstn (S j) rs) st))).
Proof.
  induction rs as [|r rs IH] using rev_ind; [simpl; lia |].
  rewrite length_app. simpl. intros Hj.
  rewrite fold_left_app. cbn [fold_left on_completed intermediate].
  destruct (decide (j < length rs)) as [Hlt|Hge].
  - rewrite lookup_app_l by (rewrite intermediate_length; lia).
    rewrite IH by done. by rewrite take_app_le by lia.
  - assert (j = length rs) as -> by lia.
    rewrite <- intermediate_length. rewrite list_lookup_middle by done.
    rewrite take_ge by (rewrite length_app; simpl; lia).
    by rewrite fold_left_app.
Qed.

Lemma strongly_sorted_filter {A} (R : relation A) (P : A → Prop)
    `{∀ x, Decision (P x)} (l : list A) :
  StronglySorted R l → StronglySorted R (filter P l).
Proof.
  induction 1 as [|x l Hl IH Hx]; [constructor |].
  rewrite filter_cons. destruct (decide (P x)); [|done].
  constructor; [done |]. apply Forall_forall. intros y [_ Hy]%list_elem_of_filter.
  by apply (proj1 (Forall_forall _ _) Hx).
Qed.

Lemma flat_map_filter_sublist {A B} (f : A → list B) (P : A → Prop)
    `{∀ x, Decision (P x)} (l : list A) :
  flat_map f (filter P l) `sublist_of` flat_map f l.
Proof.
  induction l as [|x l IH]; [done |].
  rewrite filter_cons. destruct (decide (P x)); simpl.
  - by apply sublist_app.
  - by apply sublist_inserts_l.
Qed.

Lemma sorted_keys_partial (ch : Chains) (doc_name : string)
    (chunks : list Document) (done_ : list nat) :
  Forall (fun k => k < length chunks) done_ →
  sorted_keys (fold_left (fun m r => <[fst r := snd r]> m)
                 (map (fun k => (k, outcome_of ch doc_name chunks k)) done_) ∅)
  = filter (fun k => k ∈ done_) (seq 0 (length chunks)).
Proof.
  intros Hrange. unfold sorted_keys. apply (Sorted_unique Nat.le).
  - apply Sorted_merge_sort. apply _.
  - apply StronglySorted_Sorted, strongly_sorted_filter.
    apply Sorted_StronglySorted; [apply _ | apply Sorted_le_seq].
  - rewrite merge_sort_Permutation.
    apply NoDup_Permutation;
      [apply NoDup_elements | apply NoDup_filter, NoDup_seq |].
    intros k. rewrite elem_of_elements, elem_of_dom, list_elem_of_filter.
    rewrite (insert_fold_lookup ch doc_name chunks)
      by (apply Forall_forall; by intros r (k' & -> & _)%list_elem_of_fmap).
    rewrite <- list_fmap_compose, lookup_empty.
    replace (fst ∘ (fun k0 : nat => (k0, outcome_of ch doc_name chunks k0)))
      with (@id nat) by done.
    rewrite list_fmap_id. destruct (decide (k ∈ done_)) as [Hk|Hk].
    + split; [|by eauto]. intros _. split; [done |].
      apply elem_of_seq. pose proof (proj1 (Forall_forall _ _) Hrange k Hk) as Hlt.
      simpl in Hlt. lia.
    + split; [by intros [? ?] | tauto].
Qed.

Lemma pure_checkpoint_count (ch : Chains) (doc_name : string)
    (chunks : list Document) (order : list nat) :
  order ≡ₚ seq 0 (length chunks) →
  length (snd (orchestrate_compliance_analysis ch doc_name chunks order))
  = length chunks.
Proof.
  intros Hp. unfold orchestrate_compliance_analysis, run_loop. cbn [snd].
  rewrite completed_futures by by apply permutation_in_range.
  rewrite intermediate_length, length_map. simpl.
  apply Permutation_length in Hp. by rewrite Hp, length_seq.
Qed.

Lemma pure_checkpoint_lookup (ch : Chains) (doc_name : string)
    (chunks : list Document) (order : list nat) (j : nat) :
  order ≡ₚ seq 0 (length chunks) →
  j < length chunks →
  snd (orchestrate_compliance_analysis ch doc_name chunks order) !! j
  = Some (flat_map (outcome_of ch doc_name chunks)
            (completed_upto order j (length chunks))).
Proof.
  intros Hp Hj. pose proof (permutation_in_range chunks order Hp) as Hrange.
  assert (length order = length chunks) as Hlen
    by (apply Permutation_length in Hp; by rewrite Hp, length_seq).
  unfold orchestrate_compliance_analysis, run_loop. cbn [snd].
  rewrite completed_futures by done.
  pose proof (intermediate_lookup
                (map (fun k => (k, outcome_of ch doc_name chunks k)) order)
                (mkLoop ∅ []) j) as Hl.
  cbn [intermediate length plus] in Hl. rewrite Hl by (rewrite length_map; lia).
  f_equal. unfold flatten_in_order. rewrite results_fold. cbn [results].
  rewrite firstn_map.
  rewrite (sorted_keys_partial ch doc_name chunks (firstn (S j) order))
    by by apply Forall_take.
  apply flat_map_ext_in. intros k [Hk _]%list_elem_of_filter.
  rewrite lookup_total_alt.
  rewrite (insert_fold_lookup ch doc_name chunks)
    by (apply Forall_forall; by intros r (k' & -> & _)%list_elem_of_fmap).
  rewrite <- list_fmap_compose.
  replace (fst ∘ (fun k0 : nat => (k0, outcome_of ch doc_name chunks k0)))
    with (@id nat) by done.
  rewrite list_fmap_id. by rewrite decide_True.
Qed.

End CheckpointFacts.

Section CheckpointWrites.
Import DocumentLoader Models Extractor Props Invariants.

Context (write_error : ExtractorIO.write_oracle).

(** A loop that has not raised went through the same states as the loop
    whose writes cannot fail, and none of its writes raised. *)
Lemma io_loop_returns (rs : list (nat * list dict)) (st st' : loop_state) :
  fold_left (ExtractorIO.on_completed write_error) rs (inr st) = inr st' →
  st' = fold_left on_completed rs st
  ∧ ∀ j snapshot,
      intermediate st' !! (length (intermediate st) + j) = Some snapshot →
      write_error (length (intermediate st) + j) snapshot = None.
Proof.
  revert st'. induction rs as [|r rs IH] using rev_ind; intros st'.
  - simpl. intros [= <-]. split; [done |]. intros j snapshot Hj.
    apply lookup_lt_Some in Hj. lia.
  - rewrite !fold_left_app. cbn [fold_left].
    destruct (fold_left (ExtractorIO.on_completed write_error) rs (inr st))
      as [raised|st1]; [discriminate |].
    destruct (IH st1 eq_refl) as [-> Hw]. cbn [ExtractorIO.on_completed].
    destruct (write_error _ _) eqn:E; [discriminate |]. intros [= <-].
    split; [done |]. cbn [intermediate]. intros j snapshot Hj.
    rewrite intermediate_length in E.
    destruct (decide (j < length rs)) as [Hlt|Hge].
    + rewrite lookup_app_l in Hj by (rewrite intermediate_length; lia).
      by apply Hw.
    + pose proof (lookup_lt_Some _ _ _ Hj) as Hlen.
      rewrite length_app, intermediate_length in Hlen. simpl in Hlen.
      assert (j = length rs) as -> by lia.
      rewrite <- intermediate_length, list_lookup_middle in Hj by done.
      injection Hj as <-. exact E.
Qed.

(** When no write of the loop with unfailing writes raises, the loop
    does not raise. *)
Lemma io_loop_unfailing (rs : list (nat * list dict)) (st : loop_state) :
  (∀ j snapshot,
      intermediate (fold_left on_completed rs st) !! (length (intermediate st) + j)
      = Some snapshot →
      write_error (length (intermediate st) + j) snapshot = None) →
  fold_left (ExtractorIO.on_completed write_error) rs (inr st)
  = inr (fold_left on_completed rs st).
Proof.
  induction rs as [|r rs IH] using rev_ind; [done |].
  rewrite !fold_left_app. cbn [fold_left]. intros Hw.
  rewrite IH.
  - cbn [ExtractorIO.on_completed on_completed]. rewrite intermediate_length.
    rewrite (Hw (length rs)); [done |].
    cbn [on_completed intermediate].
    rewrite <- (intermediate_length rs st). by rewrite list_lookup_middle.
  - intros j snapshot Hj. apply Hw. cbn [on_completed intermediate].
    rewrite lookup_app_l; [done |]. by apply lookup_lt_Some in Hj.
Qed.

(** A loop that raised did so at a write, after the writes the unfailing
    loop makes before that one. *)
Lemma io_loop_raises (rs : list (nat * list dict)) (st : loop_state)
    (e : string) (writes : list (list dict)) :
  fold_left (ExtractorIO.on_completed write_error) rs (inr st) = inl (e, writes) →
  ∃ j snapshot,
    j < length rs
    ∧ intermediate (fold_left on_completed rs st) !! (length (intermediate st) + j)
      = Some snapshot
    ∧ write_error (length (intermediate st) + j) snapshot = Some e
    ∧ writes = firstn (length (intermediate st) + j)
                 (intermediate (fold_left on_completed rs st)).
Proof.
  induction rs as [|r rs IH] using rev_ind; [discriminate |].
  rewrite !fold_left_app. cbn [fold_left]. rewrite length_app. cbn [length].
  destruct (fold_left (ExtractorIO.on_completed write_error) rs (inr st))
    as [raised|st1] eqn:Hrun.
  - cbn [ExtractorIO.on_completed]. intros [= ->].
    destruct (IH eq_refl) as (j & snapshot & Hj & Hl & He & Hws).
    exists j, snapshot. cbn [on_completed intermediate].
    pose proof (lookup_lt_Some _ _ _ Hl) as Hlen.
    split_and!; [lia | by rewrite lookup_app_l | done |].
    by rewrite take_app_le by lia.
  - destruct (io_loop_returns rs st st1 Hrun) as [-> _].
    cbn [ExtractorIO.on_completed]. destruct (write_error _ _) as [e'|] eqn:E;
      [|discriminate].
    intros [= <- <-]. rewrite intermediate_length in E.
    eexists (length rs), _. cbn [on_completed intermediate].
    split_and!; [lia | | exact E |].
    + rewrite <- (intermediate_length rs st). by rewrite list_lookup_middle.
    + rewrite <- (intermediate_length rs st). by rewrite take_app_length.
Qed.

End CheckpointWrites.

Section CheckpointOrder.
Import DocumentLoader Models Extractor Props Invariants.

(** The call returns what the loop with unfailing writes returns, or
    raises what a write raised after the writes made before it. *)
Lemma orchestrate_io_cases (write_error : ExtractorIO.write_oracle) (ch : Chains)
    (doc_name : string) (chunks : list Document) (order : list nat) :
  order ≡ₚ seq 0 (length chunks) →
  let unfailing_run := orchestrate_compliance_analysis ch doc_name chunks order in
  let run := ExtractorIO.orchestrate_compliance_analysis write_error ch doc_name
               chunks order in
  (∀ p, run = inr p →
        p = unfailing_run
        ∧ ∀ j snapshot, snd p !! j = Some snapshot → write_error j snapshot = None)
  ∧ ((∀ j snapshot, snd unfailing_run !! j = Some snapshot →
                    write_error j snapshot = None) →
     run = inr unfailing_run)
  ∧ (∀ e writes, run = inl (e, writes) →
       ∃ j snapshot,
         j < length chunks
         ∧ snd unfailing_run !! j = Some snapshot
         ∧ write_error j snapshot = Some e
         ∧ writes = firstn j (snd unfailing_run)).
Proof.
  intros Hp unfailing_run run. subst unfailing_run run.
  unfold ExtractorIO.orchestrate_compliance_analysis, ExtractorIO.run_loop,
    orchestrate_compliance_analysis, run_loop.
  set (rs := omap (fun k => submit_all ch doc_name chunks !! k) order).
  assert (length rs = length chunks) as Hrs.
  { subst rs. rewrite completed_futures by by apply permutation_in_range.
    rewrite length_map. apply Permutation_length in Hp. by rewrite Hp, length_seq. }
  split_and!.
  - intros p Hrun.
    destruct (fold_left (ExtractorIO.on_completed write_error) rs (inr (mkLoop ∅ [])))
      as [raised|st] eqn:E; [discriminate |].
    injection Hrun as <-.
    destruct (io_loop_returns write_error rs _ _ E) as [-> Hw]. split; [done |].
    cbn [snd]. intros j snapshot Hj. by apply (Hw j).
  - intros Hw. cbn [snd] in Hw.
    by rewrite (io_loop_unfailing write_error rs (mkLoop ∅ []) Hw).
  - intros e writes Hrun.
    destruct (fold_left (ExtractorIO.on_completed write_error) rs (inr (mkLoop ∅ [])))
      as [raised|st] eqn:E; [|discriminate].
    injection Hrun as ->.
    destruct (io_loop_raises write_error rs _ _ _ E) as (j & snapshot & Hj & Hl & He & Hws).
    exists j, snapshot. cbn [snd]. split_and!; [lia | done | done | done].
Qed.



(** X13: every future completing, the [j]-th content written in full to
    the checkpoint file, in a call that returns or in one that a later write
    ends, holds the records of the segments completed so far, by ascending
    segment ordinal whatever the order of completion, and it is the final
    content with the records of the pending segments left out.  A call that
    returns has written such a content for every [j] below the number of
    segments. *)
Theorem checkpoint_in_document_order (write_error : ExtractorIO.write_oracle)
    (ch : Chains) (doc_name : string) (chunks : list Document) (order : list nat)
    (writes : list (list dict)) (j : nat) (snapshot : list dict) :
  order ≡ₚ seq 0 (length chunks) →
  let run := ExtractorIO.orchestrate_compliance_analysis write_error ch doc_name
               chunks order in
  (∃ ret, run = inr (ret, writes)) ∨ (∃ e, run = inl (e, writes)) →
  writes !! j = Some snapshot →
  snapshot = flat_map (outcome_of ch doc_name chunks)
               (completed_upto order j (length chunks))
  ∧ snapshot `sublist_of` concat (per_segment_records ch doc_name chunks)
  ∧ ((∃ ret, run = inr (ret, writes)) →
     ∀ i, i < length chunks → is_Some (writes !! i)).
Proof.
  intros Hp run Hrun Hj.
  destruct (orchestrate_io_cases write_error ch doc_name chunks order Hp)
    as (Hret & _ & Hraise).
  fold run in Hret, Hraise.
  pose proof (pure_checkpoint_count ch doc_name chunks order Hp) as Hlen.
  assert (snd (orchestrate_compliance_analysis ch doc_name chunks order) !! j
          = Some snapshot ∧ j < length chunks) as [Hpure Hlt].
  { destruct Hrun as [[ret Hr]|[e Hr]].
    - destruct (Hret _ Hr) as [Heq _]. rewrite <- Heq. cbn [snd].
      split; [done |]. apply lookup_lt_Some in Hj.
      rewrite <- Hlen, <- Heq. done.
    - destruct (Hraise _ _ Hr) as (j0 & s0 & Hj0 & _ & _ & ->).
      apply lookup_take_Some in Hj as [Hj Hlt]. split; [done | lia]. }
  rewrite pure_checkpoint_lookup in Hpure by done. injection Hpure as <-.
  split_and!; [done | |].
  - rewrite <- flat_map_outcomes. apply flat_map_filter_sublist.
  - intros [ret Hr] i Hi. destruct (Hret _ Hr) as [Heq _].
    apply lookup_lt_is_Some. apply (f_equal snd) in Heq. cbn [snd] in Heq.
    rewrite Heq, Hlen. done.
Qed.

Lemma checkpoint_in_document_order_witness :
  let writes := snd (orchestrate_compliance_analysis Examples.chains "ISO 27001"
                       [Examples.risk_chunk; Examples.scope_chunk; Examples.risk_chunk]
                       [2; 0; 1]) in
  ∃ snapshot,
    writes !! 1 = Some snapshot
    ∧ snapshot = flat_map (outcome_of Examples.chains "ISO 27001"
                             [Examples.risk_chunk; Examples.scope_chunk;
                              Examples.risk_chunk])
                   (completed_upto [2; 0; 1] 1 3)
    ∧ snapshot `sublist_of`
        concat (per_segment_records Examples.chains "ISO 27001"
                  [Examples.risk_chunk; Examples.scope_chunk; Examples.risk_chunk]).
Proof.
  cbv zeta. eexists. split; [vm_compute; reflexivity |].
  pose proof (checkpoint_in_document_order unfailing Examples.chains "ISO 27001"
                [Examples.risk_chunk; Examples.scope_chunk; Examples.risk_chunk]
                [2; 0; 1]
                (snd (orchestrate_compliance_analysis Examples.chains "ISO 27001"
                        [Examples.risk_chunk; Examples.scope_chunk;
                         Examples.risk_chunk] [2; 0; 1]))
                1) as H.
  cbv zeta in H.
  edestruct H as (H1 & H2 & _).
  - simpl. apply perm_trans with [0; 2; 1]; [apply perm_swap | apply perm_skip, perm_swap].
  - left. eexists. vm_compute. reflexivity.
  - vm_compute. reflexivity.
  - split; [exact H1 | exact H2].
Defined.

End CheckpointOrder.

(* ===================================================================== *)
(** ** Validation after dumping *)
(* ===================================================================== *)

Section ModelFacts.
Import Models Props.

Lemma validate_dumped_controls (cs : list ControlSuggestion) :
  mapM validate_control (dump_control <$> cs) = Some cs.
Proof.
  apply mapM_Some. induction cs as [|[p t c] cs IH]; constructor; done.
Qed.

(** X14: a requirement survives its own serialisation: validating the
    dumped record gives the requirement back, controls included. *)
Theorem model_validate_model_dump (r : ComplianceRequirement) :
  model_validate (model_dump r) = Some r.
Proof.
  destruct r as [t a p x q e cs]. unfold model_validate, model_dump, controls_field.
  cbn [requirement_title article_number priority article_text requirement
       requirement_description controls].
  cbn [str_field dict_get String.eqb Ascii.eqb Bool.eqb mbind option_bind].
  by rewrite validate_dumped_controls.
Qed.

End ModelFacts.

(* ===================================================================== *)
(** ** Invariants of the task store *)
(* ===================================================================== *)

Section StoreFacts.
Import PyStr Models Api ApiFiles Invariants.

Lemma store_ok_update (tid : string) (f : TaskStatus → TaskStatus) (w : World) :
  (∀ t, record_ok tid t → record_ok tid (f t)) →
  store_ok w → store_ok (update_task tid f w).
Proof.
  intros Hf Hw k t. unfold update_task. cbn [task_store].
  rewrite lookup_alter. destruct (decide (tid = k)) as [<-|Hne].
  - destruct (task_store w !! tid) as [t0|] eqn:E; [|discriminate].
    intros [= <-]. apply Hf. by apply Hw.
  - apply Hw.
Qed.

Lemma store_ok_emit (e : event) (w : World) : store_ok w → store_ok (emit e w).
Proof. done. Qed.

Lemma record_ok_processing (env : Env) (k : string) (t : TaskStatus) :
  record_ok k t → record_ok k (set_processing env t).
Proof.
  intros (Hid & _ & _ & Hp & Hr & _). unfold record_ok, known_status. simpl.
  split_and!; try done; first [by set_solver | by auto].
Qed.

Lemma record_ok_failed (env : Env) (e k : string) (t : TaskStatus) :
  record_ok k t → record_ok k (set_failed env e t).
Proof.
  intros (Hid & _ & Hq & Hp & Hr & _). unfold record_ok, known_status. simpl.
  split_and!; try done. set_solver.
Qed.

Lemma record_ok_completed (env : Env) (n : nat) (k i : string) (t : TaskStatus) :
  record_ok k t →
  record_ok k (set_completed env n ("results_" +:+ k +:+ ".json") i t).
Proof.
  intros (Hid & _). unfold record_ok, known_status. simpl.
  split_and!; try done;
    first [by set_solver | by auto | by intros p [= <-] | by eauto].
Qed.

Lemma store_ok_process_end (env : Env) (tid pdf fn i : string) (o : outcome)
    (w : World) :
  store_ok w → store_ok (process_end env tid pdf fn i o w).
Proof.
  intros Hw. unfold process_end.
  destruct o as [e|[|x result]]; [| |destruct (open_error env _)];
    apply store_ok_emit, store_ok_update; try done;
    intros t; (apply record_ok_failed || apply record_ok_completed).
Qed.

Lemma store_ok_cancel (env : Env) (tid : string) (w : World) :
  store_ok w → store_ok (snd (cancel_task env tid w)).
Proof.
  intros Hw. unfold cancel_task.
  destruct (task_store w !! tid) as [t|] eqn:Ht; [|done].
  destruct (str_in _ _); [done |]. cbn [snd]. intros k t'. cbn [task_store].
  rewrite lookup_insert. destruct (decide (tid = k)) as [<-|Hne]; [|apply Hw].
  intros [= <-]. destruct (Hw _ _ Ht) as (Hid & _ & Hq & Hp & Hr & _).
  unfold record_ok, known_status. simpl. split_and!; try done. set_solver.
Qed.

Lemma analyze_pdf_store (env : Env) (filename : string)
    (content : list Byte.byte) (w : World) :
  task_store (snd (analyze_pdf env filename content w)) = task_store w
  ∨ task_store (snd (analyze_pdf env filename content w))
    = <[uuid4 env := mkTaskStatus (uuid4 env) "pending" 0
                       (Some "Analysis queued (large file)") None None
                       (now env) (now env)]> (task_store w).
Proof.
  unfold analyze_pdf. destruct (negb _); [by left |].
  destruct (open_error env _); [by left |].
  destruct (Qlt_bool _ _); [|by right].
  destruct (pipeline env _ _); [by left |].
  destruct (open_error env _); by left.
Qed.

Lemma store_ok_analyze (env : Env) (filename : string)
    (content : list Byte.byte) (w : World) :
  store_ok w → store_ok (snd (analyze_pdf env filename content w)).
Proof.
  intros Hw k t. destruct (analyze_pdf_store env filename content w) as [-> | ->].
  - apply Hw.
  - rewrite lookup_insert. destruct (decide (uuid4 env = k)) as [<-|Hne]; [|apply Hw].
    intros [= <-]. unfold record_ok, known_status. simpl.
    split_and!; try done; first [by set_solver | by auto].
Qed.

Lemma store_ok_step (env : Env) (a : action) (w : World) :
  store_ok w → store_ok (step env a w).
Proof.
  intros Hw. destruct a as [f c | tid | tid | tid pdf fn i o]; cbn [step].
  - by apply store_ok_analyze.
  - by apply store_ok_cancel.
  - unfold process_begin. destruct (task_store w !! tid); [|done].
    apply store_ok_update; [|done]. intros t0. apply record_ok_processing.
  - by apply store_ok_process_end.
Qed.

Lemma store_ok_run (steps : list (Env * action)) (w : World) :
  store_ok w → store_ok (run_with steps w).
Proof.
  unfold run_with. revert w.
  induction steps as [|[env a] steps IH]; intros w Hw; [done |].
  simpl. apply IH. by apply store_ok_step.
Qed.

Lemma store_ok_empty (w : World) : task_store w = ∅ → store_ok w.
Proof. intros Hw k t. by rewrite Hw, lookup_empty. Qed.

(** X15: well-formed records stay well-formed (the empty store holds
    none): after any sequence of uploads, cancellations and background
    progress, the record returned for an id carries that id, one of the five
    status values, and a progress of 0, 0.1 or 1. *)
Theorem status_record_wellformed (steps : list (Env * action)) (w : World)
    (tid : string) (t : TaskStatus) :
  task_store w = ∅ ∨ store_ok w →
  get_analysis_status tid (run_with steps w) = inr t →
  task_id t = tid
  ∧ known_status (status t)
  ∧ (progress t = 0%Q ∨ progress t = (1 # 10)%Q ∨ progress t = 1%Q).
Proof.
  intros Hw Hget. unfold get_analysis_status in Hget.
  destruct (task_store (run_with steps w) !! tid) as [t'|] eqn:E; [|discriminate].
  injection Hget as ->.
  assert (store_ok w) as Hok by (destruct Hw; [by apply store_ok_empty | done]).
  destruct (store_ok_run steps w Hok tid t E) as (H1 & H2 & H3 & _).
  done.
Qed.

Lemma queued_world_ok : store_ok Examples.queued_world.
Proof.
  intros k t Hk. unfold Examples.queued_world in Hk. cbn [task_store] in Hk.
  apply lookup_singleton_Some in Hk as [<- <-].
  unfold record_ok, known_status. simpl.
  split_and!; try done; first [by set_solver | by auto].
Qed.

Lemma status_record_wellformed_witness :
  ∃ t, get_analysis_status "t1" completed_world = inr t
       ∧ task_id t = "t1"
       ∧ known_status (status t)
       ∧ (progress t = 0%Q ∨ progress t = (1 # 10)%Q ∨ progress t = 1%Q).
Proof.
  eexists. split; [vm_compute; reflexivity |].
  apply (status_record_wellformed
           [(completing_env, BgBegin "t1");
            (completing_env,
             BgEnd "t1" "temp_t1.pdf" "policy.pdf"
               "intermediate_2025-01-01_00-00-00.json"
               (Returned [Examples.risk_requirement]))]
           Examples.queued_world "t1").
  - right. apply queued_world_ok.
  - vm_compute. reflexivity.
Defined.

(** X18: downloads do not look at the status.  Under the same condition the
    final file of a task is served exactly when its record has a result path
    and "results_{id}.json" exists, under that name; an unknown id is
    answered 404 before the file type is looked at, and a file type other
    than "intermediate" and "final" is answered 400 whatever the files. *)
Theorem download_file_rules (steps : list (Env * action)) (w : World)
    (fs : file_system) (tid file_type : string) (r : FileResponse) :
  task_store w = ∅ ∨ store_ok w →
  let w' := run_with steps w in
  (download_file fs tid "final" w' = inr r
   ↔ (∃ t, task_store w' !! tid = Some t ∧ is_Some (result_path t))
     ∧ is_Some (fs !! ("results_" +:+ tid +:+ ".json"))
     ∧ r = mkFileResponse ("results_" +:+ tid +:+ ".json")
             ("results_" +:+ tid +:+ ".json") "application/json")
  ∧ (task_store w' !! tid = None →
     download_file fs tid file_type w' = inl (HTTPException 404 "Task not found"))
  ∧ (is_Some (task_store w' !! tid) →
     file_type ≠ "intermediate" → file_type ≠ "final" →
     download_file fs tid file_type w'
     = inl (HTTPException 400 "Invalid file_type. Use 'intermediate' or 'final'")).
Proof.
  intros Hw w'.
  assert (store_ok w) as Hok by (destruct Hw; [by apply store_ok_empty | done]).
  pose proof (store_ok_run steps w Hok tid) as Hrec. fold w' in Hrec.
  unfold download_file. split_and!.
  - destruct (task_store w' !! tid) as [t|] eqn:E.
    2: { split; [discriminate | by intros ((? & ? & _) & _)]. }
    destruct (Hrec t eq_refl) as (_ & _ & _ & _ & Hp & _).
    cbn [String.eqb Ascii.eqb Bool.eqb].
    destruct (result_path t) as [p|] eqn:Hrp; cbn [usable_path].
    + rewrite (Hp p eq_refl). simpl.
      destruct (fs !! _) as [x|]; split; try discriminate.
      * intros [= <-]. split_and!; by eauto.
      * by intros (_ & _ & ->).
      * by intros (_ & [? ?] & _).
    + split; [discriminate |]. intros ((t' & Ht' & [x Hx]) & _).
      injection Ht' as <-. congruence.
  - by intros ->.
  - intros [t ->] H1 H2.
    apply String.eqb_neq in H1, H2. by rewrite H1, H2.
Qed.

Lemma download_file_rules_witness :
  download_file result_files "t1" "final" completed_world
  = inr (mkFileResponse "results_t1.json" "results_t1.json" "application/json")
  ∧ download_file result_files "t1" "summary" completed_world
    = inl (HTTPException 400 "Invalid file_type. Use 'intermediate' or 'final'").
Proof.
  pose proof (download_file_rules
                [(completing_env, BgBegin "t1");
                 (completing_env,
                  BgEnd "t1" "temp_t1.pdf" "policy.pdf"
                    "intermediate_2025-01-01_00-00-00.json"
                    (Returned [Examples.risk_requirement]))]
                Examples.queued_world result_files "t1" "summary"
                (mkFileResponse "results_t1.json" "results_t1.json"
                   "application/json")
                (or_intror queued_world_ok)) as H.
  cbv zeta in H. destruct H as (Hfinal & _ & Hbad). split.
  - apply Hfinal. split_and!; [| eexists; vm_compute; reflexivity | reflexivity].
    eexists. split; [vm_compute; reflexivity | by eexists].
  - apply Hbad; [eexists; vm_compute; reflexivity | discriminate | discriminate].
Defined.

Lemma step_extends (env : Env) (a : action) (w : World) :
  dom (task_store w) ⊆ dom (task_store (step env a w))
  ∧ trace w `prefix_of` trace (step env a w)
  ∧ (not_analyze (env, a) → dom (task_store (step env a w)) = dom (task_store w)).
Proof.
  destruct a as [f c | tid | tid | tid pdf fn i o]; cbn [step].
  - split_and!; [| | done].
    + destruct (analyze_pdf_store env f c w) as [-> | ->]; [done |].
      rewrite dom_insert_L. set_solver.
    + unfold analyze_pdf. destruct (negb _); [done |].
      destruct (open_error env _); [by apply prefix_app_r |].
      destruct (Qlt_bool _ _); [|cbn; by do 2 apply prefix_app_r].
      destruct (pipeline env _ _); [cbn; by do 4 apply prefix_app_r |].
      destruct (open_error env _); cbn; [by do 4 apply prefix_app_r |].
      by do 5 apply prefix_app_r.
  - unfold cancel_task. destruct (task_store w !! tid) as [t|] eqn:Ht; [|done].
    destruct (str_in _ _); [done |]. cbn.
    assert (dom (<[tid := mkTaskStatus (task_id t) "cancelled" (progress t)
                            (Some "Task cancelled by user") (result_path t)
                            (intermediate_path t) (created_at t) (now env)]>
                   (task_store w)) = dom (task_store w)) as ->; [|done].
    rewrite dom_insert_L. apply elem_of_dom_2 in Ht. set_solver.
  - unfold process_begin. destruct (task_store w !! tid); [|done].
    cbn. by rewrite dom_alter_L.
  - unfold process_end.
    destruct o as [e|[|x result]]; [| |destruct (open_error env _)]; cbn;
      rewrite dom_alter_L; split_and!; try done;
      first [by apply prefix_app_r | by do 2 apply prefix_app_r].
Qed.

(** X19: no request and no background step removes a task record or an
    effect already made: the ids of the store only grow, the trace only
    gets longer; and only uploads add ids. *)
Theorem tasks_and_effects_persist (steps : list (Env * action)) (w : World) :
  dom (task_store w) ⊆ dom (task_store (run_with steps w))
  ∧ trace w `prefix_of` trace (run_with steps w)
  ∧ (Forall not_analyze steps →
     dom (task_store (run_with steps w)) = dom (task_store w)).
Proof.
  unfold run_with. revert w.
  induction steps as [|[env a] steps IH]; intros w; [done |].
  cbn [fold_left fst snd].
  destruct (IH (step env a w)) as (Hd & Ht & He).
  destruct (step_extends env a w) as (Hd' & Ht' & He').
  split_and!.
  - set_solver.
  - by etrans.
  - intros Hall. inversion Hall as [|? ? Ha Hrest]; subst.
    rewrite He by done. by apply He'.
Qed.

Lemma tasks_and_effects_persist_witness :
  dom (task_store (run_with [(Examples.env_later, Cancel "t1");
                             (completing_env, BgBegin "t1")]
                     Examples.queued_world))
  = dom (task_store Examples.queued_world).
Proof.
  apply (tasks_and_effects_persist [(Examples.env_later, Cancel "t1");
                                    (completing_env, BgBegin "t1")]
           Examples.queued_world).
  repeat constructor.
Defined.

(** X20: run without interruption on a known task, the background task
    ends with status "completed" or "failed"; "completed" exactly when the
    pipeline returned at least one requirement and the result file could be
    opened; its last effect is the removal of the uploaded temporary file,
    and no other record is touched. *)
Theorem background_run_outcome (env : Env) (tid pdf_path original_filename : string)
    (w : World) (t : TaskStatus) :
  task_store w !! tid = Some t →
  ∃ w', process_pdf_analysis env tid pdf_path original_filename w = Some w'
        ∧ (status_of tid w' = Some "completed" ∨ status_of tid w' = Some "failed")
        ∧ (status_of tid w' = Some "completed"
           ↔ (∃ x result,
                 pipeline env pdf_path
                   ("intermediate_" +:+ strftime env (now env) +:+ ".json")
                 = Returned (x :: result))
             ∧ open_error env ("results_" +:+ tid +:+ ".json") = None)
        ∧ last (trace w') = Some (EvRemove pdf_path)
        ∧ ∀ k, k ≠ tid → task_store w' !! k = task_store w !! k.
Proof.
  intros Ht. unfold process_pdf_analysis, process_begin. rewrite Ht.
  cbn [mbind option_bind]. eexists. split; [reflexivity |].
  unfold process_end, status_of.
  destruct (pipeline env _ _) as [e|[|x result]];
    [| | destruct (open_error env _) as [e|] eqn:Ho];
    cbn [emit update_task task_store trace];
    rewrite ?lookup_alter_eq, Ht; cbn [fmap option_fmap option_map status
                                        set_failed set_completed set_processing];
    (split_and!;
     [ auto
     | split; [try discriminate | intros ((? & ? & ?) & ?); try discriminate; try congruence]
     | by rewrite last_snoc
     | intros k Hk; by rewrite !lookup_alter_ne ]).
  intros _. split; [by eauto | done].
Qed.

Lemma background_run_outcome_witness :
  ∃ w', process_pdf_analysis completing_env "t1" "temp_t1.pdf" "policy.pdf"
          Examples.queued_world = Some w'
        ∧ status_of "t1" w' = Some "completed"
        ∧ last (trace w') = Some (EvRemove "temp_t1.pdf").
Proof.
  destruct (background_run_outcome completing_env "t1" "temp_t1.pdf" "policy.pdf"
              Examples.queued_world Examples.pending_task eq_refl)
    as (w' & Hrun & _ & Hiff & Hlast & _).
  exists w'. split; [exact Hrun |]. split; [|exact Hlast].
  apply Hiff. split; [|reflexivity]. by eexists _, _.
Defined.

(** X21: when the temporary copy of an upload with a ".pdf" name cannot be
    written, the answer is status 500 with the text of the error; the
    content has been read, and nothing else happened: no task record, no
    background task, no pipeline call. *)
Theorem temp_write_failure (env : Env) (filename : string)
    (content : list Byte.byte) (w : World) (e : string) :
  (∃ stem, lower filename = stem +:+ ".pdf") →
  open_error env ("temp_" +:+ uuid4 env +:+ ".pdf") = Some e →
  analyze_pdf env filename content w
  = (inl (HTTPException 500 ("Failed to save file: " +:+ e)),
     mkWorld (task_store w) (background_tasks w) (trace w ++ [EvRead])).
Proof.
  intros Hpdf%endswith_spec Hopen. unfold analyze_pdf.
  by rewrite Hpdf, Hopen.
Qed.

Lemma temp_write_failure_witness :
  analyze_pdf readonly_env "scan.pdf" [Byte.x25] Examples.queued_world
  = (inl (HTTPException 500 ("Failed to save file: " +:+ "disk full")),
     mkWorld (task_store Examples.queued_world)
       (background_tasks Examples.queued_world)
       (trace Examples.queued_world ++ [EvRead])).
Proof.
  apply temp_write_failure; [by exists "scan" | reflexivity].
Defined.

(** X22: an accepted upload of less than 5.0 MB never leaves its temporary
    copy behind: the request reads the content, writes the copy, calls the
    pipeline and ends by removing the copy; the result file is written in
    between exactly when the answer is the completed analysis, and the
    answer is status 500 otherwise. *)
Theorem synchronous_upload_cleans_up (env : Env) (filename : string)
    (content : list Byte.byte) (w : World) :
  (∃ stem, lower filename = stem +:+ ".pdf") →
  open_error env ("temp_" +:+ uuid4 env +:+ ".pdf") = None →
  (file_size_mb content < 5)%Q →
  let temp_path := "temp_" +:+ uuid4 env +:+ ".pdf" in
  let r := analyze_pdf env filename content w in
  ∃ written,
    trace (snd r)
    = trace w
      ++ [EvRead; EvWrite temp_path;
          EvPipeline temp_path
            ("intermediate_" +:+ strftime env (now env) +:+ ".json")]
      ++ written ++ [EvRemove temp_path]
    ∧ ((written = [EvWrite ("results_" +:+ uuid4 env +:+ ".json")]
        ∧ ∃ msg result, fst r = inr (Completed msg result))
       ∨ (written = [] ∧ ∃ detail, fst r = inl (HTTPException 500 detail))).
Proof.
  intros Hpdf%endswith_spec Hopen Hlt%Qlt_bool_spec temp_path r.
  subst r temp_path. unfold analyze_pdf. rewrite Hpdf, Hopen, Hlt. cbn [negb].
  clear Hopen. destruct (pipeline env _ _) as [e|result].
  - exists []. cbn. rewrite <- !app_assoc. split; [done |]. right. by eauto.
  - destruct (open_error env ("results_" +:+ uuid4 env +:+ ".json")) as [e|].
    + exists []. cbn. rewrite <- !app_assoc. split; [done |]. right. by eauto.
    + eexists [_]. cbn. rewrite <- !app_assoc. split; [done |]. left. by eauto.
Qed.

Lemma synchronous_upload_cleans_up_witness :
  ∃ written,
    trace (snd (analyze_pdf completing_env "policy.pdf" [Byte.x25]
                  Examples.empty_world))
    = trace Examples.empty_world
      ++ [EvRead; EvWrite "temp_t1.pdf";
          EvPipeline "temp_t1.pdf" "intermediate_2025-01-01_00-00-00.json"]
      ++ written ++ [EvRemove "temp_t1.pdf"]
    ∧ ((written = [EvWrite "results_t1.json"]
        ∧ ∃ msg result,
            fst (analyze_pdf completing_env "policy.pdf" [Byte.x25]
                   Examples.empty_world) = inr (Completed msg result))
       ∨ (written = []
          ∧ ∃ detail,
              fst (analyze_pdf completing_env "policy.pdf" [Byte.x25]
                     Examples.empty_world) = inl (HTTPException 500 detail))).
Proof.
  apply (synchronous_upload_cleans_up completing_env "policy.pdf" [Byte.x25]
           Examples.empty_world); [by exists "policy" | reflexivity | reflexivity].
Defined.

End StoreFacts.

(* ===================================================================== *)
(** ** Task records read between two assignments *)
(* ===================================================================== *)

Section InterleavingFacts.
Import PyStr Models Api ApiFiles Invariants Interleaving.









Lemma completed_assignments_from_code (env : Env) (n : nat) (tid i : string) :
  Forall from_code
    (map (Assign tid)
       (completed_assignments env n ("results_" +:+ tid +:+ ".json") i)).
Proof.
  apply Forall_forall. intros m (a & -> & Ha)%list_elem_of_fmap.
  right. left. by exists env, n, i.
Qed.





Lemma micro_run_assigns_store (task_id : string) (l : list assignment) (w : World) :
  task_store (micro_run (map (Assign task_id) l) w)
  = alter (fun t => fold_left (fun t a => assign a t) l t) task_id (task_store w).
Proof.
  unfold micro_run. revert w. induction l as [|a l IH]; intros w.
  - simpl. apply map_eq. intros k. rewrite lookup_alter.
    destruct (decide (task_id = k)) as [<-|]; [|done].
    by destruct (task_store w !! task_id).
  - cbn [map fold_left]. rewrite IH. cbn [micro_step update_task task_store].
    apply map_eq. intros k. destruct (decide (task_id = k)) as [<-|].
    + rewrite !lookup_alter_eq. by destruct (task_store w !! task_id).
    + by rewrite !lookup_alter_ne.
Qed.

Lemma from_code_assigns (task_id : string) (l : list assignment) :
  Forall (written_by_code task_id) l → Forall from_code (map (Assign task_id) l).
Proof. intros Hl. apply Forall_fmap. exact Hl. Qed.

(** Every step of [Api.step] leaves the store that some sequence of
    uploads and single assignments of the code leaves: the states reached
    by whole steps are among those reached one assignment at a time. *)
Lemma step_is_micro_run (env : Env) (a : action) (w : World) :
  ∃ ms, Forall from_code ms
        ∧ task_store (micro_run ms w) = task_store (step env a w).
Proof.
  destruct a as [f c | tid | tid | tid pdf fn i o]; cbn [step].
  - exists [Upload env f c]. split; [by repeat constructor | done].
  - unfold cancel_task. destruct (task_store w !! tid) as [t|] eqn:Ht;
      [|by exists []].
    destruct (str_in _ _); [by exists [] |].
    exists (map (Assign tid) (cancelled_assignments env)). split.
    + apply from_code_assigns, Forall_forall. intros a Ha.
      right. right. right. by exists env.
    + rewrite micro_run_assigns_store. cbn [snd task_store].
      apply map_eq. intros k. rewrite lookup_alter, lookup_insert.
      destruct (decide (tid = k)) as [<-|]; [|done]. by rewrite Ht.
  - unfold process_begin. destruct (task_store w !! tid) as [t|] eqn:Ht;
      [|by exists []].
    exists (map (Assign tid) (processing_assignments env)). split.
    + apply from_code_assigns, Forall_forall. intros a Ha. left. by exists env.
    + by rewrite micro_run_assigns_store.
  - assert (∀ e, ∃ ms, Forall from_code ms
                       ∧ task_store (micro_run ms w)
                         = alter (set_failed env e) tid (task_store w)) as Hfailed.
    { intros e. exists (map (Assign tid) (failed_assignments env e)). split.
      - apply from_code_assigns, Forall_forall. intros a Ha.
        right. right. left. by exists env, e.
      - by rewrite micro_run_assigns_store. }
    unfold process_end. destruct o as [e|[|x result]]; [apply Hfailed.. |].
    destruct (open_error env _) as [e|]; [apply Hfailed |].
    exists (map (Assign tid)
              (completed_assignments env (length (x :: result))
                 ("results_" +:+ tid +:+ ".json") i)).
    split; [apply completed_assignments_from_code |].
    by rewrite micro_run_assigns_store.
Qed.

End InterleavingFacts.

Section Traceability.
Import DocumentLoader Models Extractor Props.

(** X23: every requirement the orchestrator returns belongs to a segment of
    the document: whatever the order of completion, it carries the article
    number derived from that segment's id and that segment's text, and it is
    the validated form of one of the records extracted for that segment. *)
Theorem returned_requirement_has_a_segment (ch : Chains) (doc_name : string)
    (chunks : list Document) (order : list nat) (r : ComplianceRequirement) :
  order ≡ₚ seq 0 (length chunks) →
  r ∈ fst (orchestrate_compliance_analysis ch doc_name chunks order) →
  ∃ k chunk d,
    chunks !! k = Some chunk
    ∧ d ∈ snd (process_chunk k chunk ch doc_name)
    ∧ model_validate d = Some r
    ∧ article_number r = section_num_of (section_id_of chunk)
    ∧ article_text r = page_content chunk.
Proof.
  intros Hp Hr. rewrite orchestrate_value in Hr by done.
  apply list_elem_of_In, in_concat in Hr as (rs & Hrs & Hr).
  unfold per_segment_requirements, per_segment_records in Hrs.
  apply in_map_iff in Hrs as (records & <- & Hrec).
  apply list_elem_of_In, elem_of_lookup_imap in Hrec as (k & chunk & -> & Hk).
  apply list_elem_of_In, list_elem_of_omap in Hr as (d & Hd & Hv).
  exists k, chunk, d. split_and!; try done.
  - destruct (process_chunk_overridden k chunk ch doc_name d Hd) as [Hn _].
    destruct (model_validate_fields d r Hv) as [Hn' _]. congruence.
  - destruct (process_chunk_overridden k chunk ch doc_name d Hd) as [_ Hx].
    destruct (model_validate_fields d r Hv) as [_ Hx']. congruence.
Qed.

Lemma returned_requirement_has_a_segment_witness :
  ∃ k chunk d,
    [Examples.scope_chunk; Examples.risk_chunk] !! k = Some chunk
    ∧ d ∈ snd (process_chunk k chunk Examples.chains "ISO 27001")
    ∧ model_validate d
      = Some (mkComplianceRequirement "Risk determination" "6.1.2" "high"
                (page_content Examples.risk_chunk)
                "The organization shall determine the risks."
                "Risks have to be determined."
                [mkControlSuggestion "high" "Risk register"
                   "Maintain a risk register."])
    ∧ "6.1.2" = section_num_of (section_id_of chunk)
    ∧ page_content Examples.risk_chunk = page_content chunk.
Proof.
  apply (returned_requirement_has_a_segment Examples.chains "ISO 27001"
           [Examples.scope_chunk; Examples.risk_chunk] [1; 0]).
  - apply perm_swap.
  - vm_compute. left.
Defined.

End Traceability.
